(** * securepdf: print-job pipeline and vector layout engine

    A shallow embedding of the parts of the repository that carry its
    algorithmic and lifecycle obligations:

    - [Js]      the fragment of JavaScript value semantics the code relies on
                (numbers with NaN and infinities, truthiness, [||], [Number],
                [Math.max] / [Math.min], [String], [padStart], [slice]);
    - [Series]  the numbering series of [VectorLayoutEngine.drawSeriesNumbers];
    - [Layout]  [buildSlotLayoutPlan], the repeat clamp of [createSinglePage] /
                [createPage] and the exact-unit branch of [drawSourceFragment];
    - [Hmac]    [stableStringify], [signJobPayload], [verifyJobPayload];
    - [Lock]    the Lua release script and [releaseRenderLock];
    - [Worker]  [mapErrorCode], [processMerge] and the worker's failed handler;
    - [Records] the reply of the status route from a job record;
    - [Seal]    how the request handler signs a new job;
    - [Batch]   [withTimeout], [processBatch] and the dispatcher of the queue;
    - [Normalize] the scale and translation of [normalizeSvgToA4].

    Numbers are modelled exactly (rationals, no rounding); strings are byte
    strings. *)

From Stdlib Require Import ZArith QArith Qround Lia Lqa.
From Stdlib Require Import Strings.String Strings.Ascii Numbers.DecimalString.
From Stdlib Require Import Numbers.DecimalFacts Numbers.DecimalPos Numbers.DecimalZ.
From stdpp Require Import base gmap strings list sorting.

Open Scope string_scope.

(* ===================================================================== *)
(** ** JavaScript values                                                  *)
(* ===================================================================== *)

Module Js.

(** A JS number: a rational, or one of the three non-finite values.
    Signed zero is not distinguished. *)
Inductive num : Type :=
| NaN
| PInf
| NInf
| Fin (q : Q).

(** The values that reach the layout code through [metadata]. [JObject]
    stands for a plain object: truthy, and [Number] of it is [NaN]. *)
Inductive value : Type :=
| JUndefined
| JNull
| JBool (b : bool)
| JNum (n : num)
| JObject.

(** An operation either returns or throws an [Error] with a message. *)
Inductive res (A : Type) : Type :=
| Ok (a : A)
| Throw (msg : string).
Arguments Ok {A} a.
Arguments Throw {A} msg.

Definition bind {A B} (k : A -> res B) (r : res A) : res B :=
  match r with
  | Ok a => k a
  | Throw m => Throw m
  end.

(** [x ← r; k] sequences two operations; a throw in [r] skips [k]. *)
#[export] Instance res_mbind : MBind res := @bind.
#[export] Instance res_mret : MRet res := @Ok.

Definition Qltb (a b : Q) : bool := negb (Qle_bool b a).

(** [Number(v)] *)
Definition Number (v : value) : num :=
  match v with
  | JUndefined => NaN
  | JNull => Fin 0
  | JBool true => Fin 1
  | JBool false => Fin 0
  | JNum n => n
  | JObject => NaN
  end.

(** Truthiness: [undefined], [null], [false], [0] and [NaN] are falsy. *)
Definition truthy (v : value) : bool :=
  match v with
  | JUndefined | JNull => false
  | JBool b => b
  | JNum NaN => false
  | JNum (Fin q) => negb (Qeq_bool q 0)
  | JNum _ => true
  | JObject => true
  end.

(** [a || b] *)
Definition or_else (a b : value) : value := if truthy a then a else b.

Definition isFinite (n : num) : bool :=
  match n with Fin _ => true | _ => false end.

(** [a > b]; any comparison with [NaN] is false. *)
Definition gt (a b : num) : bool :=
  match a, b with
  | NaN, _ | _, NaN => false
  | PInf, PInf => false
  | PInf, _ => true
  | _, PInf => false
  | NInf, _ => false
  | Fin _, NInf => true
  | Fin x, Fin y => Qltb y x
  end.

Definition lt (a b : num) : bool := gt b a.

(** [Math.max(a, b)] and [Math.min(a, b)]: [NaN] if either is [NaN]. *)
Definition max (a b : num) : num :=
  match a, b with
  | NaN, _ | _, NaN => NaN
  | _, _ => if gt b a then b else a
  end.

Definition min (a b : num) : num :=
  match a, b with
  | NaN, _ | _, NaN => NaN
  | _, _ => if lt b a then b else a
  end.

Definition neg (a : num) : num :=
  match a with
  | NaN => NaN
  | PInf => NInf
  | NInf => PInf
  | Fin q => Fin (- q)
  end.

Definition add (a b : num) : num :=
  match a, b with
  | NaN, _ | _, NaN => NaN
  | PInf, NInf | NInf, PInf => NaN
  | PInf, _ | _, PInf => PInf
  | NInf, _ | _, NInf => NInf
  | Fin x, Fin y => Fin (x + y)
  end.

Definition sub (a b : num) : num := add a (neg b).

Definition sign_inf (positive : bool) : num := if positive then PInf else NInf.

Definition mul (a b : num) : num :=
  match a, b with
  | NaN, _ | _, NaN => NaN
  | Fin x, Fin y => Fin (x * y)
  | Fin x, PInf | PInf, Fin x =>
      if Qeq_bool x 0 then NaN else sign_inf (Qltb 0 x)
  | Fin x, NInf | NInf, Fin x =>
      if Qeq_bool x 0 then NaN else sign_inf (Qltb x 0)
  | PInf, PInf | NInf, NInf => PInf
  | PInf, NInf | NInf, PInf => NInf
  end.

(** [String(n)] for an integer [n]: an optional minus sign and the decimal
    digits. *)
Definition String_of_int (z : Z) : string :=
  NilEmpty.string_of_int (Z.to_int z).





End Js.

(* ===================================================================== *)
(** ** Series numbering ([drawSeriesNumbers])                             *)
(* ===================================================================== *)

Module Series.
Import Js.






End Series.

(* ===================================================================== *)
(** ** Slot layout ([VectorLayoutEngine])                                 *)
(* ===================================================================== *)

Module Layout.
Import Js.

(** [Math.max] and [Math.min] on two finite numbers. *)
Definition qmax (a b : Q) : Q := if Qltb a b then b else a.
Definition qmin (a b : Q) : Q := if Qltb b a then b else a.

Definition MM_TO_PT : Q := 2834645669 # 1000000000.

(** [new Array(n)] accepts an integer between 0 and 2^32 - 1 and throws a
    [RangeError] on every other number. *)
Definition array_length (n : num) : option nat :=
  match n with
  | Fin q =>
      let z := Qfloor q in
      if Qeq_bool q (inject_Z z) && (0 <=? z)%Z && (z <? 2 ^ 32)%Z
      then Some (Z.to_nat z) else None
  | _ => None
  end.

(** The indices visited by [for (let i = 0; i < n; i += 1)], with a bound
    on the number of iterations. *)
Fixpoint for_loop (fuel i : nat) (n : num) : list nat :=
  match fuel with
  | O => []
  | S f =>
      if lt (Fin (inject_Z (Z.of_nat i))) n then i :: for_loop f (S i) n
      else []
  end.

Record slot : Type := {
  index : nat;
  x : Q;
  y : Q;
  width : Q;
  height : Q;
}.

(** The fields of the crop the exact-unit branch reads. *)
Record ticketCrop : Type := {
  widthMm : value;
  heightMm : value;
  xMm : value;
  yMm : value;
  cutMarginMm : value;
  rotationDeg : value;
}.

Record placement : Type := {
  p_index : nat;
  slotLeft : Q;
  slotBottom : Q;
  slotWidth : Q;
  slotHeight : Q;
  contentLeft : Q;
  contentBottom : Q;
  contentWidth : Q;
  contentHeight : Q;
  objectMm : option (Q * Q * Q * Q);
  slotScaleX : Q;
  slotScaleY : Q;
}.

(** One [page.drawPage] call: the slot it belongs to, the origin before
    calibration, the scale factors, and whether it goes through the
    rotation matrix. *)
Record drawCall : Type := {
  d_index : nat;
  d_x : Q;
  d_y : Q;
  d_xScale : Q;
  d_yScale : Q;
  d_rotated : bool;
}.

Definition _finiteOrNull (v : value) : option Q :=
  match v with
  | JUndefined | JNull => None
  | _ => match Number v with Fin q => Some q | _ => None end
  end.

Definition _assertFiniteIfPresent (v : value) (name : string) : res unit :=
  match v with
  | JUndefined | JNull => Ok tt
  | _ =>
      if isFinite (Number v) then Ok tt
      else Throw ("MM_LAYOUT_INVALID: " +:+ name +:+ " must be a finite number or null")
  end.

(** [typeof widthMm === 'number' && typeof heightMm === 'number' &&
    widthMm > 0 && heightMm > 0] *)
Definition isUserMmMode (tc : ticketCrop) : bool :=
  match widthMm tc, heightMm tc with
  | JNum w, JNum h => gt w (Fin 0) && gt h (Fin 0)
  | _, _ => false
  end.

Definition negative (o : option Q) : bool :=
  match o with Some q => Qltb q 0 | None => false end.

(** [Math.max(1, Math.min(16, Number(v || dflt)))] *)
Definition clamp_repeat (v : value) (dflt : Q) : num :=
  max (Fin 1) (min (Fin 16) (Number (or_else v (JNum (Fin dflt))))).

(** The repeat count of [createSinglePage] and [createPage], from
    [layout?.repeatPerPage]. *)
Definition repeatPerPage_of (layout_repeatPerPage : value) : num :=
  clamp_repeat layout_repeatPerPage 4.

(** The slot count of [drawSourceFragment], from the number it is given. *)
Definition slotsPerPage_of (repeatPerPage : num) : num :=
  clamp_repeat (JNum repeatPerPage) 1.

(** The slot count of a page by kind of [layout.repeatPerPage]: a missing
    value, [false], [NaN] and [0] give the default 4; an object gives 1;
    a number is clamped to [1, 16]. *)
Definition slots_rule (v : value) : Q :=
  match v with
  | JUndefined | JNull | JBool false | JNum NaN => 4
  | JBool true | JObject | JNum NInf => 1
  | JNum PInf => 16
  | JNum (Fin q) =>
      if Qeq_bool q 0 then 4
      else if Qltb q 1 then 1 else if Qltb 16 q then 16 else q
  end.

(** A natural number as a JS number. *)
Definition Qn (n : nat) : Q := inject_Z (Z.of_nat n).

(** How many placements a call produced, if it returned. *)
Definition placed {A B} (r : A * res (list B)) : option nat :=
  match r with
  | (_, Ok ps) => Some (length ps)
  | (_, Throw _) => None
  end.

Section Engine.
Local Open Scope Q_scope.
(** The page constants and the rounding helper of [constants.js]. *)
Variables A4_WIDTH A4_HEIGHT SAFE_MARGIN : Q.
Variable snap : Q -> Q.

Definition mmToPt (mm : Q) : Q := mm * MM_TO_PT.

Definition A4_HEIGHT_MM : Q := (A4_HEIGHT * (254 # 10)) / 72.

(** The inter-slot gap [buildSlotLayoutPlan] takes from its second
    argument (default 0): a finite number, floored at 0, and 0 otherwise. *)
Definition gap_of (slotSpacingPt : value) : Q :=
  let rawGap :=
    Number (match slotSpacingPt with JUndefined => JNum (Fin 0) | v => v end) in
  match rawGap with Fin g => qmax 0 g | _ => 0 end.

Definition buildSlotLayoutPlan (repeatPerPage slotSpacingPt : value)
  : res (list slot) :=
  let slotsPerPage := max (Fin 1) (Number (or_else repeatPerPage (JNum (Fin 1)))) in
  let usableHeight := A4_HEIGHT - 2 * SAFE_MARGIN in
  let gap := gap_of slotSpacingPt in
  match array_length slotsPerPage with
  | None => Throw "Invalid array length"
  | Some n =>
      let count := inject_Z (Z.of_nat n) in
      let totalGaps := gap * qmax 0 (count - 1) in
      let heightWithGap := usableHeight - totalGaps in
      let effectiveGap := if Qltb 0 heightWithGap then gap else 0 in
      let slotHeight := (usableHeight - effectiveGap * qmax 0 (count - 1)) / count in
      Ok (map (fun i =>
                 {| index := i;
                    x := SAFE_MARGIN;
                    y := SAFE_MARGIN + inject_Z (Z.of_nat i) * (slotHeight + effectiveGap);
                    width := A4_WIDTH - 2 * SAFE_MARGIN;
                    height := slotHeight |})
              (seq 0 n))
  end.

(** The field checks at the head of the exact-unit branch. *)
Definition validateMm (tc : ticketCrop) : res unit :=
  _ ← _assertFiniteIfPresent (widthMm tc) "ticketCrop.widthMm";
  _ ← _assertFiniteIfPresent (heightMm tc) "ticketCrop.heightMm";
  _ ← _assertFiniteIfPresent (xMm tc) "ticketCrop.xMm";
  _ ← _assertFiniteIfPresent (yMm tc) "ticketCrop.yMm";
  _ ← _assertFiniteIfPresent (cutMarginMm tc) "ticketCrop.cutMarginMm";
  _ ← _assertFiniteIfPresent (rotationDeg tc) "ticketCrop.rotationDeg";
  if negative (_finiteOrNull (xMm tc)) then Throw "MM_LAYOUT_INVALID: xMm must be >= 0"
  else if negative (_finiteOrNull (yMm tc)) then Throw "MM_LAYOUT_INVALID: yMm must be >= 0"
  else if negative (_finiteOrNull (cutMarginMm tc))
  then Throw "MM_LAYOUT_INVALID: cutMarginMm must be >= 0"
  else Ok tt.

Definition or_zero (o : option Q) : Q :=
  match o with Some q => q | None => 0 end.

(** [lastObjectBottomMm] of the exact-unit branch. *)
Definition lastObjectBottomMm (tc : ticketCrop) (slotsPerPage : num) : num :=
  let objectHeightMm := or_zero (_finiteOrNull (heightMm tc)) in
  let startYmm := or_zero (_finiteOrNull (yMm tc)) in
  let cutGapMm := or_zero (_finiteOrNull (cutMarginMm tc)) in
  let verticalStepMm := objectHeightMm + cutGapMm in
  add (add (Fin startYmm) (mul (sub slotsPerPage (Fin 1)) (Fin verticalStepMm)))
      (Fin objectHeightMm).

(** The exact-unit branch after validation: the fit check, then one draw
    and one placement per object. [bboxW], [bboxH] are the crop size in
    points. *)
Definition placeMm (tc : ticketCrop) (bboxW bboxH : Q) (slotsPerPage : num)
    (page : list drawCall) : list drawCall * res (list placement) :=
  let objectWidthMm := or_zero (_finiteOrNull (widthMm tc)) in
  let objectHeightMm := or_zero (_finiteOrNull (heightMm tc)) in
  let startXmm := or_zero (_finiteOrNull (xMm tc)) in
  let startYmm := or_zero (_finiteOrNull (yMm tc)) in
  let cutGapMm := or_zero (_finiteOrNull (cutMarginMm tc)) in
  let objectWidthPt := snap (mmToPt objectWidthMm) in
  let objectHeightPt := snap (mmToPt objectHeightMm) in
  let sourceWidthPt := snap bboxW in
  let sourceHeightPt := snap bboxH in
  let scaleX := snap (objectWidthPt / qmax (1 # 10000) sourceWidthPt) in
  let scaleY := snap (objectHeightPt / qmax (1 # 10000) sourceHeightPt) in
  let verticalStepMm := objectHeightMm + cutGapMm in
  if gt (lastObjectBottomMm tc slotsPerPage) (Fin A4_HEIGHT_MM)
  then (page, Throw "Objects do not fit on page")
  else
    let rot := or_zero (_finiteOrNull (rotationDeg tc)) in
    let place (i : nat) :=
      let objXmm := startXmm in
      let objYmm := startYmm + inject_Z (Z.of_nat i) * verticalStepMm in
      let drawX := snap (mmToPt objXmm) in
      let drawY := snap (A4_HEIGHT - mmToPt objYmm - objectHeightPt) in
      ({| d_index := i; d_x := drawX; d_y := drawY;
          d_xScale := scaleX; d_yScale := scaleY;
          d_rotated := negb (Qeq_bool rot 0) |},
       {| p_index := i;
          slotLeft := drawX; slotBottom := drawY;
          slotWidth := objectWidthPt; slotHeight := objectHeightPt;
          contentLeft := drawX; contentBottom := drawY;
          contentWidth := objectWidthPt; contentHeight := objectHeightPt;
          objectMm := Some (objXmm, objYmm, objectWidthMm, objectHeightMm);
          slotScaleX := scaleX; slotScaleY := scaleY |}) in
    let steps := map place (for_loop 17 0 slotsPerPage) in
    ((page ++ map fst steps)%list, Ok (map snd steps)).

(** The ratio-grid branch: one draw and one placement per planned slot. *)
Definition placeGrid (bboxW bboxH : Q) (slotsPerPage : num)
    (slotSpacingPt : value) (page : list drawCall)
  : list drawCall * res (list placement) :=
  match buildSlotLayoutPlan (JNum slotsPerPage) slotSpacingPt with
  | Throw m => (page, Throw m)
  | Ok plan =>
      let place (s : slot) :=
        let slotScale :=
          snap (qmin (width s / qmax (1 # 10000) bboxW)
                     (height s / qmax (1 # 10000) bboxH)) in
        let drawX := snap (x s - 0 * slotScale) in
        let drawY := snap (y s + (height s - bboxH * slotScale) - 0 * slotScale) in
        ({| d_index := index s; d_x := drawX; d_y := drawY;
            d_xScale := slotScale; d_yScale := slotScale; d_rotated := false |},
         {| p_index := index s;
            slotLeft := x s; slotBottom := y s;
            slotWidth := width s; slotHeight := height s;
            contentLeft := drawX; contentBottom := drawY;
            contentWidth := snap (bboxW * slotScale);
            contentHeight := snap (bboxH * slotScale);
            objectMm := None;
            slotScaleX := slotScale; slotScaleY := slotScale |}) in
      let steps := map place plan in
      ((page ++ map fst steps)%list, Ok (map snd steps))
  end.

(** [drawSourceFragment], from the crop, the crop size in points, the
    repeat count and the spacing it is called with. The page is the list
    of draw calls made so far. *)
Definition drawSourceFragment (tc : ticketCrop) (bboxW bboxH : Q)
    (repeatPerPage : num) (slotSpacingPt : value) (page : list drawCall)
  : list drawCall * res (list placement) :=
  if isUserMmMode tc then
    match validateMm tc with
    | Throw m => (page, Throw m)
    | Ok _ => placeMm tc bboxW bboxH (slotsPerPage_of repeatPerPage) page
    end
  else placeGrid bboxW bboxH (slotsPerPage_of repeatPerPage) slotSpacingPt page.

(** The slot placements of one page as [createSinglePage] and [createPage]
    obtain them from [layout.repeatPerPage] and [layout.slotSpacingPt]. *)
Definition pagePlacements (tc : ticketCrop) (bboxW bboxH : Q)
    (layout_repeatPerPage layout_slotSpacingPt : value) (page : list drawCall)
  : list drawCall * res (list placement) :=
  drawSourceFragment tc bboxW bboxH (repeatPerPage_of layout_repeatPerPage)
    (or_else layout_slotSpacingPt (JNum (Fin 0))) page.

End Engine.

(** Sample inputs. The page is A4 at 72 points per inch, 595.28 by 841.89
    points, as the SVG normaliser of the engine writes it; the margin is
    half an inch. *)
Definition sample_A4_WIDTH : Q := 59528 # 100.
Definition sample_A4_HEIGHT : Q := 84189 # 100.
Definition sample_SAFE_MARGIN : Q := 36.

(** A crop with no exact-unit fields: the ratio grid applies. *)
Definition crop_grid : ticketCrop :=
  {| widthMm := JNull; heightMm := JNull; xMm := JNull; yMm := JNull;
     cutMarginMm := JNull; rotationDeg := JNull |}.



End Layout.

(* ===================================================================== *)
(** ** Payload signing ([hmac.js])                                        *)
(* ===================================================================== *)

Module Hmac.
Import Js.

(** Numbers inside a payload: integers and the non-finite values. *)
Inductive pnum : Type :=
| PNaN
| PInfinity (negative : bool)
| PInt (z : Z).

(** A payload value. An object is the list of its own enumerable
    properties; a well-formed object has no repeated key. *)
#[warnings="-register-all"]
Inductive pval : Type :=
| PUndefined
| PNull
| PBool (b : bool)
| PNum (n : pnum)
| PStr (s : string)
| PArr (items : list pval)
| PObj (fields : list (string * pval)).

Definition truthy (v : pval) : bool :=
  match v with
  | PUndefined | PNull => false
  | PBool b => b
  | PNum PNaN => false
  | PNum (PInt z) => negb (z =? 0)%Z
  | PNum (PInfinity _) => true
  | PStr s => negb (String.eqb s "")
  | PArr _ | PObj _ => true
  end.

(** [typeof v === 'object'] *)
Definition is_object (v : pval) : bool :=
  match v with
  | PNull | PArr _ | PObj _ => true
  | _ => false
  end.

Fixpoint lookup_first {A} (k : string) (l : list (string * A)) : option A :=
  match l with
  | [] => None
  | (k', a) :: r => if String.eqb k k' then Some a else lookup_first k r
  end.

(** [v.name] for a property name that is not an array index. *)
Definition get (v : pval) (name : string) : pval :=
  match v with
  | PObj fields => default PUndefined (lookup_first name fields)
  | _ => PUndefined
  end.

Definition dquote : ascii := "034"%char.

Definition hex_digit (n : N) : ascii :=
  ascii_of_N (if (n <? 10)%N then 48 + n else 87 + n).

(** How [JSON.stringify] writes one character of a string. *)
Definition chunk (c : ascii) : string :=
  let n := N_of_ascii c in
  if (n =? 34)%N then String "\" (String dquote "")
  else if (n =? 92)%N then "\\"
  else if (n =? 8)%N then "\b"
  else if (n =? 12)%N then "\f"
  else if (n =? 10)%N then "\n"
  else if (n =? 13)%N then "\r"
  else if (n =? 9)%N then "\t"
  else if (n <? 32)%N
  then "\u00" +:+ String (hex_digit (n / 16)) (String (hex_digit (n mod 16)) "")
  else String c "".

Definition hex_value (c : ascii) : option N :=
  let n := N_of_ascii c in
  if (48 <=? n)%N && (n <=? 57)%N then Some (n - 48)%N
  else if (97 <=? n)%N && (n <=? 102)%N then Some (n - 87)%N
  else None.

(** Reads back one character written by [chunk] from the front of a
    string; a bare double quote is not the start of any. *)
Definition unchunk (s : string) : option (ascii * string) :=
  match s with
  | EmptyString => None
  | String c r =>
      let n := N_of_ascii c in
      if (n =? 34)%N then None
      else if (n =? 92)%N then
        match r with
        | EmptyString => None
        | String d r' =>
            let m := N_of_ascii d in
            if (m =? 34)%N then Some (dquote, r')
            else if (m =? 92)%N then Some (ascii_of_N 92, r')
            else if (m =? 98)%N then Some (ascii_of_N 8, r')
            else if (m =? 102)%N then Some (ascii_of_N 12, r')
            else if (m =? 110)%N then Some (ascii_of_N 10, r')
            else if (m =? 114)%N then Some (ascii_of_N 13, r')
            else if (m =? 116)%N then Some (ascii_of_N 9, r')
            else if (m =? 117)%N then
              match r' with
              | String _ (String _ (String h1 (String h2 r''))) =>
                  match hex_value h1, hex_value h2 with
                  | Some a, Some b => Some (ascii_of_N (16 * a + b), r'')
                  | _, _ => None
                  end
              | _ => None
              end
            else None
        end
      else Some (c, r)
  end.

Fixpoint escape (s : string) : string :=
  match s with
  | EmptyString => EmptyString
  | String c t => chunk c +:+ escape t
  end.

(** [JSON.stringify(s)] for a string [s]. *)
Definition quote (s : string) : string :=
  String dquote (escape s +:+ String dquote "").

(** [JSON.stringify(n)] for a number. *)
Definition number_json (n : pnum) : string :=
  match n with
  | PInt z => String_of_int z
  | _ => "null"
  end.

(** [parts.join(sep)] *)
Fixpoint join (sep : string) (parts : list string) : string :=
  match parts with
  | [] => ""
  | [p] => p
  | p :: rest => p +:+ sep +:+ join sep rest
  end.

(** [keys.sort()]: ascending in the order of the code units. *)
Fixpoint insert_key (k : string) (sorted : list string) : list string :=
  match sorted with
  | [] => [k]
  | h :: t => if String.leb k h then k :: sorted else h :: insert_key k t
  end.

Definition sort_keys (keys : list string) : list string :=
  fold_right insert_key [] keys.

(** The object case of [stableStringify], from the canonical strings of
    the property values ([None] for a value that is [undefined]). *)
Definition stringify_object (rendered : list (string * option string)) : string :=
  let keys :=
    sort_keys (map fst (filter (fun kr => is_Some (snd kr)) rendered)) in
  let entries :=
    map (fun k =>
           quote k +:+ ":" +:+ default "" (mjoin (lookup_first k rendered)))
        keys in
  "{" +:+ join "," entries +:+ "}".

(** [stableStringify(value)]; [None] is the result [undefined]. *)
Fixpoint stableStringify (value : pval) : option string :=
  match value with
  | PUndefined => None
  | PNull => Some "null"
  | PBool true => Some "true"
  | PBool false => Some "false"
  | PNum n => Some (number_json n)
  | PStr s => Some (quote s)
  | PArr items =>
      Some ("[" +:+ join "," (map (fun v => default "" (stableStringify v)) items)
                +:+ "]")
  | PObj fields =>
      Some (stringify_object
              ((fix each (fs : list (string * pval)) :=
                  match fs with
                  | [] => []
                  | (k, v) :: r => (k, stableStringify v) :: each r
                  end) fields))
  end.

(** A payload whose fields are all strings, such as
    [{jobId, outputKey, createdAt}]. *)
Definition flat (fields : list (string * string)) : pval :=
  PObj (map (fun kv => (fst kv, PStr (snd kv))) fields).

(** A stand-in for a keyed MAC, used to run the definitions. *)
Definition toy_mac (key message : string) : string := key +:+ ":" +:+ message.

(** Two payloads that differ in one field and have the same canonical
    string, since [JSON.stringify(NaN)] is "null". *)
Definition payload_null : pval := PObj [("jobId", PNull)].
Definition payload_nan : pval := PObj [("jobId", PNum PNaN)].

(** A payload carrying one of the forbidden fields. *)
Definition payload_with_pages : pval :=
  PObj [("jobId", PStr "j1"); ("pages", PArr [PNum (PInt 1)])].

(** The signed triple of a job. *)
Definition payload_triple : list (string * string) :=
  [("jobId", "65f0c0ffee0123456789abcd"); ("outputKey", "documents/final/a.pdf");
   ("createdAt", "2024-03-01T10:00:00.000Z")].

Definition payload_triple_moved : list (string * string) :=
  [("jobId", "65f0c0ffee0123456789abcd"); ("outputKey", "documents/final/b.pdf");
   ("createdAt", "2024-03-01T10:00:00.000Z")].

(** A well-formed payload: a plain object or array none of whose forbidden
    fields holds a truthy value. *)
Definition well_formed (payload : pval) : bool :=
  truthy payload && is_object payload
  && negb (truthy (get payload "pages") || truthy (get payload "seriesConfig")
           || truthy (get payload "placementRules")).

Section Signer.
(** [process.env.JOB_PAYLOAD_HMAC_SECRET], and
    [crypto.createHmac('sha256', key).update(message).digest('hex')]. *)
Variable secret : option string.
Variable hmac_sha256_hex : string -> string -> string.

Definition signJobPayload (payload : pval) : res string :=
  if negb (truthy payload) || negb (is_object payload)
  then Throw "HMAC payload must be a plain object"
  else if truthy (get payload "pages") || truthy (get payload "seriesConfig")
          || truthy (get payload "placementRules")
  then Throw "HMAC payload must be immutable only"
  else
    match secret with
    | None => Throw "JOB_PAYLOAD_HMAC_SECRET not configured"
    | Some key =>
        if String.eqb key "" then Throw "JOB_PAYLOAD_HMAC_SECRET not configured"
        else Ok (hmac_sha256_hex key (default "" (stableStringify payload)))
    end.

(** [crypto.timingSafeEqual] on two buffers of the same length. *)
Definition timingSafeEqual (a b : string) : bool := String.eqb a b.

Definition verifyJobPayload (payload expectedHmac : pval) : res bool :=
  match expectedHmac with
  | PStr expected =>
      if String.eqb expected "" then Ok false
      else
        actualHmac ← signJobPayload payload;
        if negb (String.length actualHmac =? String.length expected)%nat
        then Ok false
        else Ok (timingSafeEqual actualHmac expected)
  | _ => Ok false
  end.

End Signer.

End Hmac.

(* ===================================================================== *)
(** ** Render lock release ([RELEASE_RENDER_LOCK_LUA])                    *)
(* ===================================================================== *)

Module Lock.
Import Js.

(** A Redis string: the decimal form of an integer, which [DECR] accepts
    when it fits 64 bits, or any other string. *)
Inductive rstring : Type :=
| SInt (z : Z)
| SStr (s : string).

(** A value in the coordination store: a string, or a value of another
    type (list, hash, set), on which [GET] and [DECR] reply with an error. *)
Inductive rval : Type :=
| VString (s : rstring)
| VOther.

Abbreviation VInt z := (VString (SInt z)).
Abbreviation VStr s := (VString (SStr s)).

(** Lua's [tostring] of a string read with [GET]. *)
Definition tostring (v : rstring) : string :=
  match v with
  | SInt z => String_of_int z
  | SStr s => s
  end.

Definition lockKey (documentId : string) : string := "vector:render:lock:" +:+ documentId.
Definition activeKey : string := "vector:render:active".
Definition memberKey (jobId : string) : string := "vector:render:active:" +:+ jobId.

Definition LLONG_MIN : Z := - 2 ^ 63.
Definition LLONG_MAX : Z := 2 ^ 63 - 1.

Definition WRONGTYPE : string :=
  "WRONGTYPE Operation against a key holding the wrong kind of value".

Definition NOT_AN_INTEGER : string :=
  "ERR value is not an integer or out of range".

(** [GET key]: the string, or nil for an absent key. *)
Definition GET (key : string) (store : gmap string rval) : res (option rstring) :=
  match store !! key with
  | None => Ok None
  | Some (VString s) => Ok (Some s)
  | Some VOther => Throw WRONGTYPE
  end.

(** [DECR key]: an absent key counts as 0; a value that is not a 64-bit
    integer, or that cannot go lower, is refused with an error reply. *)
Definition DECR (key : string) (store : gmap string rval)
  : gmap string rval * res unit :=
  match store !! key with
  | None => (<[key := VInt (-1)]> store, Ok tt)
  | Some (VInt z) =>
      if (LLONG_MIN <? z)%Z && (z <=? LLONG_MAX)%Z
      then (<[key := VInt (z - 1)]> store, Ok tt)
      else (store, Throw NOT_AN_INTEGER)
  | Some (VStr _) => (store, Throw NOT_AN_INTEGER)
  | Some VOther => (store, Throw WRONGTYPE)
  end.

(** The job holds the lock: the lock key has a string value equal to the
    job id. *)
Definition holds_lock (k_lock jobId : string) (store : gmap string rval) : Prop :=
  exists cur, store !! k_lock = Some (VString cur) /\ tostring cur = jobId.

Section Script.
(** Lua's [tonumber] on a string that is not the decimal form of an
    integer: a number, or nil. *)
Variable lua_tonumber : string -> option Q.

Definition tonumber (v : rstring) : option Q :=
  match v with
  | SInt z => Some (inject_Z z)
  | SStr s => lua_tonumber s
  end.

(** The second block of the script: if the membership marker exists it is
    deleted, and the counter is decremented when it reads as a number
    above zero. *)
Definition release_member (k_active k_member : string)
    (store1 : gmap string rval) : gmap string rval * res Z :=
  match store1 !! k_member with
  | Some _ =>
      let store2 := delete k_member store1 in
      match GET k_active store2 with
      | Throw m => (store2, Throw m)
      | Ok got =>
          let active :=
            match got with
            | Some v => tonumber v
            | None => Some 0%Q
            end in
          match active with
          | Some a =>
              if Qltb 0 a then
                match DECR k_active store2 with
                | (store3, Ok _) => (store3, Ok 1%Z)
                | (store3, Throw m) => (store3, Throw m)
                end
              else (store2, Ok 1%Z)
          | None => (store2, Ok 1%Z)
          end
      end
  | None => (store1, Ok 1%Z)
  end.

(** The release script, run as one step on the store; [KEYS] are the lock
    key, the counter key and the membership key, [ARGV[1]] the job id.
    An error reply ends the script; what it wrote before stays written. *)
Definition RELEASE_RENDER_LOCK_LUA (k_lock k_active k_member jobId : string)
    (store : gmap string rval) : gmap string rval * res Z :=
  match GET k_lock store with
  | Throw m => (store, Throw m)
  | Ok cur =>
      let store1 :=
        match cur with
        | Some cur =>
            if String.eqb (tostring cur) jobId then delete k_lock store else store
        | None => store
        end in
      release_member k_active k_member store1
  end.

(** [releaseRenderLock]: nothing happens without a client or with an empty
    id; an error of the script is caught and dropped. [redis_up] tells
    whether [getRedisClient()] returns a client. *)
Definition releaseRenderLock (redis_up : bool) (documentId printJobId : string)
    (store : gmap string rval) : gmap string rval * res unit :=
  if negb redis_up then (store, Ok tt)
  else if String.eqb documentId "" || String.eqb printJobId "" then (store, Ok tt)
  else
    match RELEASE_RENDER_LOCK_LUA (lockKey documentId) activeKey
            (memberKey printJobId) printJobId store with
    | (store', Ok _) => (store', Ok tt)
    | (store', Throw _) => (store', Ok tt)
    end.

End Script.

(** A [tonumber] for running the definitions: no other string is a
    number. *)
Definition no_number (s : string) : option Q := None.

(** A store in which job "j1" holds the lock of document "d1" and is one
    of two active jobs. *)
Definition store_held : gmap string rval :=
  {[ lockKey "d1" := VStr "j1"; memberKey "j1" := VStr "1"; activeKey := VInt 2 ]}.

End Lock.

(* ===================================================================== *)
(** ** Merge worker ([vectorPdfWorker.js])                                *)
(* ===================================================================== *)

Module Worker.
Import Js Hmac Lock.

Inductive status : Type :=
| CREATED
| BATCH_RUNNING
| MERGE_RUNNING
| READY
| FAILED.

#[export] Instance status_eq_dec : EqDecision status.
Proof. solve_decision. Defined.

Inductive source : Type :=
| api
| batch_worker
| merge_worker.

Record lifecycle : Type := {
  from : status;
  to : status;
  by_source : source;
}.

(** The persisted job record, with the fields the merge stage reads or
    writes. A field that may be absent or not a string is an [option]. *)
Record jobDoc : Type := {
  _id : string;
  job_status : status;
  errorCode : option string;
  error_message : option string;
  progress : Z;
  payloadHmac : option string;
  createdAt : option string;
  metadata_outputKey : option string;
  hmacPayload_outputKey : option string;
  metadata_documentId : option string;
  metadata_sourcePdfKey : option string;
  sourcePdfKey : string;
  output_key : option string;
  audit : list string;
  lifecycleHistory : list lifecycle;
}.

(** A queue item: its name, [data.printJobId], [parent.data.printJobId],
    [opts.attempts] and [attemptsMade]. *)
Record workItem : Type := {
  name : string;
  data_printJobId : option string;
  parent_printJobId : option string;
  attempts : option Z;
  attemptsMade : Z;
}.

(** The stores the worker acts on: the job collection, keyed by the id a
    query is made with, the uploaded objects, and the coordination store. *)
Record world : Type := {
  db : gmap string jobDoc;
  uploads : list (string * string);
  redis : gmap string rval;
}.

Definition is_space (c : ascii) : bool :=
  let n := N_of_ascii c in
  ((9 <=? n)%N && (n <=? 13)%N) || (n =? 32)%N.

Fixpoint ltrim (s : string) : string :=
  match s with
  | String c t => if is_space c then ltrim t else s
  | EmptyString => EmptyString
  end.

(** [s.trim()] *)
Definition trim (s : string) : string :=
  String.rev (ltrim (String.rev (ltrim s))).

Definition lower (c : ascii) : ascii :=
  let n := N_of_ascii c in
  if (65 <=? n)%N && (n <=? 90)%N then ascii_of_N (n + 32) else c.

Fixpoint prefix_ci (p s : string) : bool :=
  match p, s with
  | EmptyString, _ => true
  | String a p', String b s' => Ascii.eqb (lower a) (lower b) && prefix_ci p' s'
  | String _ _, EmptyString => false
  end.

(** [/p/i.test(s)] for a pattern [p] of plain characters. *)
Fixpoint test_ci (p s : string) : bool :=
  prefix_ci p s ||
  match s with
  | EmptyString => false
  | String _ s' => test_ci p s'
  end.

(** [mapErrorCode(err, fallback)], from [err.message]. *)
Definition mapErrorCode (msg : string) (fallback : string) : string :=
  if String.eqb msg "SVG_NORMALIZE_TIMEOUT" then "TIMEOUT"
  else if test_ci "hmac" msg then "HMAC_FAILED"
  else if test_ci "inkscape" msg then "INKSCAPE_FAIL"
  else if test_ci "merge" msg then "MERGE_FAIL"
  else if test_ci "vector metadata" msg then "INVALID_INPUT"
  else if test_ci "SVG too complex" msg || String.eqb msg "SVG_TOO_COMPLEX"
  then "SVG_TOO_COMPLEX"
  else if test_ci "SECURITY VIOLATION" msg then "INVALID_OUTPUT"
  else if test_ci "timeout" msg then "TIMEOUT"
  else if String.eqb fallback "" then "UNKNOWN" else fallback.

(** [a || b || ...] over optional strings, ending in the empty string. *)
Fixpoint first_truthy (candidates : list (option string)) : string :=
  match candidates with
  | [] => ""
  | Some s :: rest => if String.eqb s "" then first_truthy rest else s
  | None :: rest => first_truthy rest
  end.

Definition getDocumentIdFromJobDoc (d : jobDoc) : string :=
  trim (first_truthy [metadata_documentId d; metadata_sourcePdfKey d;
                      Some (sourcePdfKey d)]).

(** [typeof v === 'string' && v.trim()] *)
Definition trimmed (v : option string) : option string :=
  match v with
  | Some s => Some (trim s)
  | None => None
  end.

(** The virtual [outputKey] of the schema. *)
Definition outputKey (d : jobDoc) : option string :=
  match hmacPayload_outputKey d with
  | Some k => if String.eqb k "" then None else Some k
  | None => None
  end.

Definition getStableHmacPayload (d : jobDoc) : res (list (string * string)) :=
  let outputKey :=
    first_truthy [trimmed (metadata_outputKey d);
                  trimmed (hmacPayload_outputKey d);
                  trimmed (outputKey d)] in
  if String.eqb outputKey "" then Throw "outputKey missing on job"
  else match createdAt d with
       | None => Throw "createdAt missing on job"
       | Some iso =>
           Ok [("jobId", _id d); ("outputKey", outputKey); ("createdAt", iso)]
       end.

(** [header.startsWith('%PDF-')] on the first five bytes. *)
Definition has_pdf_header (bytes : string) : bool := String.prefix "%PDF-" bytes.

Definition SECURITY_VIOLATION : string :=
  "SECURITY VIOLATION: Output is not a valid PDF. Vector pipeline broken.".

Definition INVALID_LIFECYCLE : string := "Invalid lifecycle transition".

(** [discardInvalidLifecycle]: the queue item is discarded and the error
    thrown; the job record is not touched. *)
Definition discardInvalidLifecycle {A} : res A := Throw INVALID_LIFECYCLE.

(** A conditional update: the write is applied only if the stored record
    has the expected status; the result tells whether it was. *)
Definition update_if_status (id : string) (expected : status)
    (change : jobDoc -> jobDoc) (docs : gmap string jobDoc)
  : gmap string jobDoc * bool :=
  match docs !! id with
  | Some stored =>
      if decide (job_status stored = expected)
      then (<[id := change stored]> docs, true)
      else (docs, false)
  | None => (docs, false)
  end.

(** A document save: the changed paths are written to the stored record
    whatever its status is. *)
Definition save_changes (id : string) (change : jobDoc -> jobDoc)
    (docs : gmap string jobDoc) : gmap string jobDoc :=
  alter change id docs.

Definition set_merge_running (fromStatus : status) (d : jobDoc) : jobDoc :=
  {| _id := _id d; job_status := MERGE_RUNNING; errorCode := None;
     error_message := error_message d; progress := progress d;
     payloadHmac := payloadHmac d; createdAt := createdAt d;
     metadata_outputKey := metadata_outputKey d;
     hmacPayload_outputKey := hmacPayload_outputKey d;
     metadata_documentId := metadata_documentId d;
     metadata_sourcePdfKey := metadata_sourcePdfKey d;
     sourcePdfKey := sourcePdfKey d; output_key := output_key d;
     audit := audit d;
     lifecycleHistory :=
       lifecycleHistory d ++
       [{| from := fromStatus; to := MERGE_RUNNING; by_source := merge_worker |}] |}.

Definition set_ready (key : string) (d : jobDoc) : jobDoc :=
  {| _id := _id d; job_status := READY; errorCode := None;
     error_message := error_message d; progress := 100;
     payloadHmac := payloadHmac d; createdAt := createdAt d;
     metadata_outputKey := metadata_outputKey d;
     hmacPayload_outputKey := hmacPayload_outputKey d;
     metadata_documentId := metadata_documentId d;
     metadata_sourcePdfKey := metadata_sourcePdfKey d;
     sourcePdfKey := sourcePdfKey d; output_key := Some key;
     audit := audit d ++ ["JOB_DONE"; "MERGE_TIME"];
     lifecycleHistory :=
       lifecycleHistory d ++
       [{| from := MERGE_RUNNING; to := READY; by_source := merge_worker |}] |}.

Definition set_progress (p : Z) (event : string) (d : jobDoc) : jobDoc :=
  {| _id := _id d; job_status := job_status d; errorCode := errorCode d;
     error_message := error_message d; progress := p;
     payloadHmac := payloadHmac d; createdAt := createdAt d;
     metadata_outputKey := metadata_outputKey d;
     hmacPayload_outputKey := hmacPayload_outputKey d;
     metadata_documentId := metadata_documentId d;
     metadata_sourcePdfKey := metadata_sourcePdfKey d;
     sourcePdfKey := sourcePdfKey d; output_key := output_key d;
     audit := audit d ++ [event];
     lifecycleHistory := lifecycleHistory d |}.

Definition set_failed (code msg : string) (entry : list lifecycle) (d : jobDoc)
  : jobDoc :=
  {| _id := _id d; job_status := FAILED; errorCode := Some code;
     error_message := Some msg; progress := progress d;
     payloadHmac := payloadHmac d; createdAt := createdAt d;
     metadata_outputKey := metadata_outputKey d;
     hmacPayload_outputKey := hmacPayload_outputKey d;
     metadata_documentId := metadata_documentId d;
     metadata_sourcePdfKey := metadata_sourcePdfKey d;
     sourcePdfKey := sourcePdfKey d; output_key := output_key d;
     audit := audit d ++ ["JOB_FAILED"];
     lifecycleHistory := lifecycleHistory d ++ entry |}.

Definition with_db (w : world) (docs : gmap string jobDoc) : world :=
  {| db := docs; uploads := uploads w; redis := redis w |}.

(** What the merge carries from its checks into the guarded block: the
    root id, the record as it was read, and the document id. *)
Record mergeCtx : Type := {
  rootPrintJobId : string;
  jobRead : jobDoc;
  documentId : string;
}.

Section Pipeline.
Variable secret : option string.
Variable hmac_sha256_hex : string -> string -> string.
Variable lua_tonumber : string -> option Q.
Variable redis_up : bool.

Definition release (documentId printJobId : string) (w : world) : world :=
  {| db := db w; uploads := uploads w;
     redis := fst (releaseRenderLock lua_tonumber redis_up documentId printJobId
                     (redis w)) |}.

(** [updateProgress(jobDoc, progress, event)]: the local record and the
    stored one get the clamped progress and the audit entry. *)
Definition updateProgress (id : string) (local : jobDoc) (p : Z) (event : string)
    (w : world) : world * jobDoc :=
  let clamped := Z.max 0 (Z.min 100 p) in
  (with_db w (save_changes id (set_progress clamped event) (db w)),
   set_progress clamped event local).

(** [processMerge] up to and including the transition to [MERGE_RUNNING].
    The early return for a [FAILED] job that follows the status check in
    the source is never taken: such a job has been discarded by then. *)
Definition mergeStart (job : workItem) (w : world) : world * res mergeCtx :=
  let root :=
    match data_printJobId job with
    | Some r => Some r
    | None => parent_printJobId job
    end in
  match root with
  | None => (w, Throw "Missing root printJobId")
  | Some root =>
  if String.eqb root "" then (w, Throw "Missing root printJobId") else
  match db w !! root with
  | None => (w, Throw "PrintJob not found")
  | Some jobDoc =>
  let documentId := getDocumentIdFromJobDoc jobDoc in
  if negb (bool_decide (job_status jobDoc = BATCH_RUNNING))
     && negb (bool_decide (job_status jobDoc = CREATED))
  then (w, discardInvalidLifecycle) else
  match payloadHmac jobDoc with
  | None => (w, Throw "payloadHmac missing on job")
  | Some expected =>
  if String.eqb expected "" then (w, Throw "payloadHmac missing on job") else
  match getStableHmacPayload jobDoc with
  | Throw m => (w, Throw m)
  | Ok payload =>
  let jobId := _id jobDoc in
  if negb (String.eqb root jobId)
  then (w, Throw ("Root printJobId mismatch: rootPrintJobId=" +:+ root
                    +:+ " payload.jobId=" +:+ jobId)) else
  match verifyJobPayload secret hmac_sha256_hex (flat payload) (PStr expected) with
  | Throw m => (w, Throw m)
  | Ok false => (w, Throw "HMAC verification failed")
  | Ok true =>
  let fromStatus :=
    if bool_decide (job_status jobDoc = CREATED) then CREATED else BATCH_RUNNING in
  match update_if_status root fromStatus (set_merge_running fromStatus) (db w) with
  | (_, false) => (w, discardInvalidLifecycle)
  | (docs, true) =>
      (with_db w docs,
       Ok {| rootPrintJobId := root; jobRead := jobDoc; documentId := documentId |})
  end end end end end end.

(** The guarded block of [processMerge]; [rendered] is what
    [createPage(metadata)] followed by [save()] gives. *)
Definition mergeBody (ctx : mergeCtx) (rendered : res string) (w : world)
  : world * res string :=
  let root := rootPrintJobId ctx in
  let (w1, local1) :=
    updateProgress root (jobRead ctx) (Z.max (progress (jobRead ctx)) 80)
      "MERGE_JOB_STARTED" w in
  match rendered with
  | Throw m => (w1, Throw m)
  | Ok bytes =>
  if negb (has_pdf_header bytes) then (w1, Throw SECURITY_VIOLATION) else
  let (w2, local2) :=
    updateProgress root local1 (Z.max (progress local1) 95) "FINAL_RENDER_DONE" w1 in
  let finalKey :=
    match trimmed (outputKey (jobRead ctx)) with
    | Some k => if String.eqb k "" then "documents/final/" +:+ root +:+ ".pdf" else k
    | None => "documents/final/" +:+ root +:+ ".pdf"
    end in
  let w3 :=
    {| db := db w2; uploads := uploads w2 ++ [(finalKey, bytes)]; redis := redis w2 |} in
  match update_if_status root MERGE_RUNNING (set_ready finalKey) (db w3) with
  | (_, false) => (w3, discardInvalidLifecycle)
  | (docs, true) => (with_db w3 docs, Ok finalKey)
  end
  end.

(** The [try] / [catch] around the block: the lock is released on both
    paths. *)
Definition mergeFinish (ctx : mergeCtx) (rendered : res string) (w : world)
  : world * res string :=
  let (w', r) := mergeBody ctx rendered w in
  (release (documentId ctx) (rootPrintJobId ctx) w', r).

Definition processMerge (job : workItem) (rendered : res string) (w : world)
  : world * res string :=
  match mergeStart job w with
  | (w', Throw m) => (w', Throw m)
  | (w', Ok ctx) => mergeFinish ctx rendered w'
  end.

(** The worker's [failed] handler, first part: the record it reads, when
    it goes on to write. *)
Definition failedRead (job : workItem) (errMessage : string) (w : world)
  : option jobDoc :=
  match data_printJobId job with
  | None => None
  | Some printJobId =>
      if String.eqb printJobId "" then None
      else if String.eqb errMessage INVALID_LIFECYCLE then None
      else
        match db w !! printJobId with
        | None => None
        | Some jobDoc =>
            if bool_decide (job_status jobDoc = READY) then None else Some jobDoc
        end
  end.

(** Second part: the record is marked failed and saved, and the lock is
    released on a final failure. *)
Definition failedSave (job : workItem) (errMessage : string) (jobDoc : jobDoc)
    (w : world) : world :=
  let printJobId := default "" (data_printJobId job) in
  let attempts := match attempts job with
                  | Some a => if (a =? 0)%Z then 1%Z else a
                  | None => 1%Z
                  end in
  let isFinalFailure := (attempts <=? attemptsMade job)%Z in
  let msg := if String.eqb errMessage "" then "Job failed" else errMessage in
  let entry :=
    if isFinalFailure
    then [{| from := job_status jobDoc; to := FAILED;
             by_source := if String.eqb (name job) "merge"
                          then merge_worker else batch_worker |}]
    else [] in
  let w1 :=
    with_db w (save_changes printJobId
                 (set_failed (mapErrorCode errMessage "UNKNOWN") msg entry) (db w)) in
  if isFinalFailure
  then release (getDocumentIdFromJobDoc jobDoc) printJobId w1
  else w1.

Definition onFailed (job : workItem) (errMessage : string) (w : world) : world :=
  match failedRead job errMessage w with
  | None => w
  | Some jobDoc => failedSave job errMessage jobDoc w
  end.

(** A merge delivery and what becomes of its failure. *)
Definition runMerge (job : workItem) (rendered : res string) (w : world) : world :=
  match processMerge job rendered w with
  | (w', Ok _) => w'
  | (w', Throw m) => onFailed job m w'
  end.

End Pipeline.

Definition status_of (id : string) (w : world) : option status :=
  job_status <$> db w !! id.

Definition errorCode_of (id : string) (w : world) : option string :=
  db w !! id ≫= errorCode.

(** A job as the request handler creates it, and worlds around it. *)
Definition sample_job (id : string) (st : status) : jobDoc :=
  {| _id := id; job_status := st; errorCode := None; error_message := None;
     progress := 0; payloadHmac := Some "5f2b"; createdAt := Some "2024-03-01T10:00:00.000Z";
     metadata_outputKey := None;
     hmacPayload_outputKey := Some "documents/final/a.pdf";
     metadata_documentId := Some "doc-1"; metadata_sourcePdfKey := None;
     sourcePdfKey := "documents/src/a.pdf"; output_key := None;
     audit := ["JOB_CREATED"]; lifecycleHistory := [] |}.

Definition merge_item (id : string) : workItem :=
  {| name := "merge"; data_printJobId := Some id; parent_printJobId := None;
     attempts := Some 1%Z; attemptsMade := 1 |}.

Definition batch_item (id : string) : workItem :=
  {| name := "batch"; data_printJobId := Some id; parent_printJobId := None;
     attempts := Some 1%Z; attemptsMade := 1 |}.

Definition world_of (key : string) (d : jobDoc) : world :=
  {| db := {[ key := d ]}; uploads := []; redis := ∅ |}.

(** The record is stored under its id; the work item names the same id
    with upper-case hex digits, which the query accepts. *)
Definition world_upper_id : world :=
  world_of "65F0C0FFEE0123456789ABCD" (sample_job "65f0c0ffee0123456789abcd" CREATED).

(** A job whose merge is under way. *)
Definition world_merging : world :=
  world_of "65f0c0ffee0123456789abcd"
    (sample_job "65f0c0ffee0123456789abcd" MERGE_RUNNING).

(** A created job signed with [toy_mac] under the key "k". *)
Definition signed_job : jobDoc :=
  {| _id := "65f0c0ffee0123456789abcd"; job_status := CREATED; errorCode := None;
     error_message := None; progress := 0;
     payloadHmac :=
       Some (toy_mac "k"
               (default "" (stableStringify
                  (flat [("jobId", "65f0c0ffee0123456789abcd");
                         ("outputKey", "documents/final/a.pdf");
                         ("createdAt", "2024-03-01T10:00:00.000Z")]))));
     createdAt := Some "2024-03-01T10:00:00.000Z";
     metadata_outputKey := None;
     hmacPayload_outputKey := Some "documents/final/a.pdf";
     metadata_documentId := Some "doc-1"; metadata_sourcePdfKey := None;
     sourcePdfKey := "documents/src/a.pdf"; output_key := None;
     audit := ["JOB_CREATED"]; lifecycleHistory := [] |}.

Definition world_signed : world := world_of "65f0c0ffee0123456789abcd" signed_job.

(** The merge of [world_merging] completing: the conditional update from
    [MERGE_RUNNING] to [READY]. *)
Definition world_merged : world :=
  with_db world_merging
    (fst (update_if_status "65f0c0ffee0123456789abcd" MERGE_RUNNING
            (set_ready "documents/final/a.pdf") (db world_merging))).

Definition mismatch_message : string :=
  "Root printJobId mismatch: rootPrintJobId=65F0C0FFEE0123456789ABCD payload.jobId=65f0c0ffee0123456789abcd".

Definition upload_failed_message : string :=
  "s3 upload page 0 failed".

End Worker.

(* ===================================================================== *)
(** ** Job records: the status reply, and how a record carries on       *)
(* ===================================================================== *)

Module Records.
Import Js Worker.

(** The answer of the secure-render route of [printRoutes.js] for a job
    that is not READY. *)
Record statusReply : Type := {
  reply_status : status;
  canRetry : bool;
  retryAfterMs : Z;
  reply_errorCode : option string;
}.

(** [codes.includes(c)] *)
Definition includes (codes : list string) (c : string) : bool :=
  existsb (String.eqb c) codes.

(** The answer computed from the record, after the stale-job check;
    [None] for a READY job, which is served. *)
Definition secureRenderStatus (d : jobDoc) : option statusReply :=
  if bool_decide (job_status d = READY) then None
  else
    let failed := bool_decide (job_status d = FAILED) in
    let errCode :=
      if failed then Some (first_truthy [errorCode d; Some "UNKNOWN"]) else None in
    Some {| reply_status := job_status d;
            canRetry :=
              match errCode with
              | Some c => negb (includes ["HMAC_FAILED"; "SVG_TOO_COMPLEX"; "INVALID_INPUT"] c)
              | None => false
              end;
            retryAfterMs := if failed then 0 else 3000;
            reply_errorCode := errCode |}.

(** The key under which [processMerge] stores the final document of the
    job [root]. *)
Definition finalKeyOf (root : string) (d : jobDoc) : string :=
  match trimmed (outputKey d) with
  | Some k => if String.eqb k "" then "documents/final/" +:+ root +:+ ".pdf" else k
  | None => "documents/final/" +:+ root +:+ ".pdf"
  end.

(** One record carries on another: the signed and identifying fields are
    the same, and the two histories have only grown. *)
Definition carries_on (d d' : jobDoc) : Prop :=
  _id d' = _id d /\ payloadHmac d' = payloadHmac d /\ createdAt d' = createdAt d /\
  metadata_outputKey d' = metadata_outputKey d /\
  hmacPayload_outputKey d' = hmacPayload_outputKey d /\
  metadata_documentId d' = metadata_documentId d /\
  metadata_sourcePdfKey d' = metadata_sourcePdfKey d /\
  sourcePdfKey d' = sourcePdfKey d /\
  lifecycleHistory d `prefix_of` lifecycleHistory d' /\
  audit d `prefix_of` audit d'.

Definition db_carries_on (docs docs' : gmap string jobDoc) : Prop :=
  forall id,
    match docs !! id with
    | Some d => exists d', docs' !! id = Some d' /\ carries_on d d'
    | None => docs' !! id = None
    end.

End Records.

(* ===================================================================== *)
(** ** Sealing a new job ([vectorRoutes.js])                            *)
(* ===================================================================== *)

Module Seal.
Import Js Hmac Worker.

(** The record with [hmacPayload.outputKey] and [payloadHmac] set. *)
Definition with_signature (hmacOutputKey : option string) (sig : string)
    (d : jobDoc) : jobDoc :=
  {| _id := _id d; job_status := job_status d; errorCode := errorCode d;
     error_message := error_message d; progress := progress d;
     payloadHmac := Some sig; createdAt := createdAt d;
     metadata_outputKey := metadata_outputKey d;
     hmacPayload_outputKey := hmacOutputKey;
     metadata_documentId := metadata_documentId d;
     metadata_sourcePdfKey := metadata_sourcePdfKey d;
     sourcePdfKey := sourcePdfKey d; output_key := output_key d;
     audit := audit d; lifecycleHistory := lifecycleHistory d |}.

Section Sealing.
Variable secret : option string.
Variable hmac_sha256_hex : string -> string -> string.

(** How the request handler of [vectorRoutes.js] seals a new job:
    [jobDoc.hmacPayload = getStableHmacPayload(jobDoc)], then
    [jobDoc.payloadHmac = signJobPayload(hmacPayload)]. *)
Definition sealJob (d : jobDoc) : res jobDoc :=
  hmacPayload ← getStableHmacPayload d;
  payloadHmac ← signJobPayload secret hmac_sha256_hex (flat hmacPayload);
  Ok (with_signature (lookup_first "outputKey" hmacPayload) payloadHmac d).

End Sealing.
End Seal.

(* ===================================================================== *)
(** ** Objects with undefined properties                                *)
(* ===================================================================== *)

Module Canon.
Import Js Hmac.

(** [v === undefined] *)
Definition is_undefined (v : pval) : bool :=
  match v with PUndefined => true | _ => false end.

(** The properties of an object whose value is not [undefined]. *)
Definition defined_fields (fields : list (string * pval)) : list (string * pval) :=
  filter (fun kv => is_undefined (snd kv) = false) fields.

Definition payload_abc : list (string * pval) :=
  [("jobId", PStr "j1"); ("outputKey", PStr "documents/final/a.pdf");
   ("createdAt", PStr "2024-03-01T10:00:00.000Z")].

Definition payload_cab : list (string * pval) :=
  [("createdAt", PStr "2024-03-01T10:00:00.000Z"); ("jobId", PStr "j1");
   ("outputKey", PStr "documents/final/a.pdf")].

Definition payload_abc_undefined : list (string * pval) :=
  [("jobId", PStr "j1"); ("traceId", PUndefined);
   ("outputKey", PStr "documents/final/a.pdf");
   ("createdAt", PStr "2024-03-01T10:00:00.000Z")].

End Canon.

(* ===================================================================== *)
(** ** Batch worker and dispatcher ([vectorPdfWorker.js])               *)
(* ===================================================================== *)

Module Batch.
Import Js Hmac Lock Worker.

(** The message [withTimeout] rejects with when its timer fires first. *)
Definition timeoutMessage (label : string) (ms : Z) : string :=
  "[TIMEOUT] " +:+ label +:+ " after " +:+ String_of_int ms +:+ "ms".

(** [withTimeout(promise, ms, label)]: [settled] is the outcome of the
    promise when it settles before the timer, [None] when the timer fires
    first. *)
Definition withTimeout {A} (settled : option (res A)) (ms : Z) (label : string)
  : res A :=
  match settled with
  | Some r => r
  | None => Throw (timeoutMessage label ms)
  end.

(** [data.startPage], [data.endPage] and [data.totalPages] of a batch work
    item: integers, 0 for a missing [totalPages]. *)
Record batchData : Type := {
  startPage : Z;
  endPage : Z;
  totalPages : Z;
}.

(** What happens to one page of a batch: the outcomes of
    [createSinglePage], [save], [uploadToS3WithKey] and of the progress
    update, each [None] when its timer fires first. A call overtaken by
    its timer is taken not to have written. *)
Record pageRun : Type := {
  created : option (res unit);
  saved : option (res string);
  uploaded : option (res unit);
  progressed : option (res unit);
}.

(** What a delivery returns to the queue. *)
Inductive jobResult : Type :=
| Pages (out : list (Z * string))
| Merged (key : string).

Definition set_batch_running (d : jobDoc) : jobDoc :=
  {| _id := _id d; job_status := BATCH_RUNNING; errorCode := None;
     error_message := error_message d; progress := progress d;
     payloadHmac := payloadHmac d; createdAt := createdAt d;
     metadata_outputKey := metadata_outputKey d;
     hmacPayload_outputKey := hmacPayload_outputKey d;
     metadata_documentId := metadata_documentId d;
     metadata_sourcePdfKey := metadata_sourcePdfKey d;
     sourcePdfKey := sourcePdfKey d; output_key := output_key d;
     audit := audit d;
     lifecycleHistory :=
       lifecycleHistory d ++
       [{| from := CREATED; to := BATCH_RUNNING; by_source := batch_worker |}] |}.

Definition tmpKey (printJobId : string) (pageIndex : Z) : string :=
  "documents/tmp/" +:+ printJobId +:+ "/page-" +:+ String_of_int pageIndex +:+ ".pdf".

(** The page indices of [for (i = Number(startPage); i < Number(endPage); i += 1)]. *)
Definition pageRange (data : batchData) : list Z :=
  seqZ (startPage data) (endPage data - startPage data).

Section BatchRun.
Variable secret : option string.
Variable hmac_sha256_hex : string -> string -> string.
Variable lua_tonumber : string -> option Q.
Variable redis_up : bool.
(** [validateVectorMetadata(jobDoc.metadata).isValid], and the
    [totalPages] field of the stored record. *)
Variable validateVectorMetadata : jobDoc -> bool.
Variable totalPages_of : jobDoc -> Z.
Variable runs : Z -> pageRun.

(** [Number(totalPages || jobDoc.totalPages || 1)] *)
Definition pagesTotal (data : batchData) (d : jobDoc) : Z :=
  if negb (totalPages data =? 0)%Z then totalPages data
  else if negb (totalPages_of d =? 0)%Z then totalPages_of d
  else 1%Z.

(** [Math.floor((rendered / Math.max(1, total)) * 80)] *)
Definition pct (pageIndex total : Z) : Z :=
  let rendered := Z.min (Z.max 0 (pageIndex + 1)) total in
  Qfloor (inject_Z rendered / inject_Z (Z.max 1 total) * 80).

(** [processBatch] up to its page loop: the record to work on. *)
Definition batchStart (job : workItem) (w : world) : world * res jobDoc :=
  match data_printJobId job with
  | None => (w, Throw "PrintJob not found")
  | Some printJobId =>
  match db w !! printJobId with
  | None => (w, Throw "PrintJob not found")
  | Some jobDoc =>
  if bool_decide (job_status jobDoc = MERGE_RUNNING)
     || bool_decide (job_status jobDoc = READY)
     || bool_decide (job_status jobDoc = FAILED)
  then (w, discardInvalidLifecycle) else
  let (w1, reread) :=
    if bool_decide (job_status jobDoc = CREATED) then
      match update_if_status printJobId CREATED set_batch_running (db w) with
      | (docs, true) => (with_db w docs, docs !! printJobId)
      | (_, false) => (w, db w !! printJobId)
      end
    else (w, Some jobDoc) in
  match reread with
  | None => (w1, Throw "PrintJob not found")
  | Some jobDoc =>
  if negb (bool_decide (job_status jobDoc = BATCH_RUNNING))
  then (w1, discardInvalidLifecycle) else
  if negb (validateVectorMetadata jobDoc) then (w1, Throw "Invalid vector metadata") else
  if String.eqb (default "" (payloadHmac jobDoc)) ""
  then (w1, Throw "payloadHmac missing on job")
  else (w1, Ok jobDoc)
  end end end.

(** The page loop. *)
Fixpoint batchLoop (printJobId : string) (data : batchData) (pages : list Z)
    (jobDoc : jobDoc) (out : list (Z * string)) (w : world)
  : world * res (list (Z * string)) :=
  match pages with
  | [] => (w, Ok out)
  | pageIndex :: rest =>
  let run := runs pageIndex in
  let n := String_of_int pageIndex in
  match withTimeout (created run) 30000 ("vector render page " +:+ n) with
  | Throw m => (w, Throw m)
  | Ok _ =>
  match withTimeout (saved run) 20000 ("pdf save page " +:+ n) with
  | Throw m => (w, Throw m)
  | Ok pageBytes =>
  if negb (has_pdf_header pageBytes) then (w, Throw SECURITY_VIOLATION) else
  match withTimeout (uploaded run) 30000 ("s3 upload page " +:+ n) with
  | Throw m => (w, Throw m)
  | Ok _ =>
  let w1 :=
    {| db := db w;
       uploads := uploads w ++ [(tmpKey printJobId pageIndex, pageBytes)];
       redis := redis w |} in
  let out1 := (out ++ [(pageIndex, tmpKey printJobId pageIndex)])%list in
  match withTimeout (progressed run) 10000 ("progress update page " +:+ n) with
  | Throw m => (w1, Throw m)
  | Ok _ =>
  let (w2, jobDoc2) :=
    updateProgress printJobId jobDoc
      (Z.max (progress jobDoc) (pct pageIndex (pagesTotal data jobDoc)))
      "PAGE_RENDERED" w1 in
  batchLoop printJobId data rest jobDoc2 out1 w2
  end end end end
  end.

Definition processBatch (job : workItem) (data : batchData) (w : world)
  : world * res (list (Z * string)) :=
  match batchStart job w with
  | (w1, Throw m) => (w1, Throw m)
  | (w1, Ok jobDoc) =>
      batchLoop (default "" (data_printJobId job)) data (pageRange data) jobDoc [] w1
  end.

(** The processor of the queue: by the name of the work item. *)
Definition dispatch (job : workItem) (data : batchData) (rendered : res string)
    (w : world) : world * res jobResult :=
  if String.eqb (name job) "batch" then
    match processBatch job data w with
    | (w', Ok out) => (w', Ok (Pages out))
    | (w', Throw m) => (w', Throw m)
    end
  else if String.eqb (name job) "merge" then
    match processMerge secret hmac_sha256_hex lua_tonumber redis_up job rendered w with
    | (w', Ok key) => (w', Ok (Merged key))
    | (w', Throw m) => (w', Throw m)
    end
  else (w, Throw ("Unknown job type: " +:+ name job)).

(** A delivery and what becomes of its failure. *)
Definition runJob (job : workItem) (data : batchData) (rendered : res string)
    (w : world) : world :=
  match dispatch job data rendered w with
  | (w', Ok _) => w'
  | (w', Throw m) => onFailed lua_tonumber redis_up job m w'
  end.

End BatchRun.

(** The job a work item is about: [data.printJobId], else the parent's. *)
Definition targetOf (job : workItem) : string :=
  match data_printJobId job with
  | Some r => r
  | None => default "" (parent_printJobId job)
  end.

(** The bytes [save] gave for a page, when it gave some. *)
Definition pageBytes (runs : Z -> pageRun) (pageIndex : Z) : string :=
  match saved (runs pageIndex) with
  | Some (Ok bytes) => bytes
  | _ => ""
  end.

(** Every call of the page settles in time without an error, and the
    bytes start with the PDF header. *)
Definition page_ok (run : pageRun) : bool :=
  match created run, saved run, uploaded run, progressed run with
  | Some (Ok _), Some (Ok bytes), Some (Ok _), Some (Ok _) => has_pdf_header bytes
  | _, _, _, _ => false
  end.

(** A record after some progress updates: a new progress value and more
    audit entries. *)
Definition progressed_to (p : Z) (events : list string) (d : jobDoc) : jobDoc :=
  {| _id := _id d; job_status := job_status d; errorCode := errorCode d;
     error_message := error_message d; progress := p;
     payloadHmac := payloadHmac d; createdAt := createdAt d;
     metadata_outputKey := metadata_outputKey d;
     hmacPayload_outputKey := hmacPayload_outputKey d;
     metadata_documentId := metadata_documentId d;
     metadata_sourcePdfKey := metadata_sourcePdfKey d;
     sourcePdfKey := sourcePdfKey d; output_key := output_key d;
     audit := audit d ++ events;
     lifecycleHistory := lifecycleHistory d |}.

(** The labels of the four timed calls of a page. *)
Definition pageLabels (pageIndex : Z) : list string :=
  ["vector render page " +:+ String_of_int pageIndex;
   "pdf save page " +:+ String_of_int pageIndex;
   "s3 upload page " +:+ String_of_int pageIndex;
   "progress update page " +:+ String_of_int pageIndex].

(** A digit or a minus sign. *)
Definition is_number_char (c : ascii) : bool :=
  let n := N_of_ascii c in
  ((48 <=? n)%N && (n <=? 57)%N) || (n =? 45)%N.

Fixpoint number_chars (s : string) : bool :=
  match s with
  | EmptyString => true
  | String c t => is_number_char c && number_chars t
  end.

(** A pattern none of whose characters is, in lower case, a digit or a
    minus sign. *)
Fixpoint wordy (p : string) : bool :=
  match p with
  | EmptyString => true
  | String a t => negb (is_number_char (lower a)) && wordy t
  end.

(** A run in which every call settles in time and every page is a PDF. *)
Definition good_run (pageIndex : Z) : pageRun :=
  {| created := Some (Ok tt); saved := Some (Ok "%PDF-1.7 page");
     uploaded := Some (Ok tt); progressed := Some (Ok tt) |}.

(** A run in which page 1 is rendered to something that is not a PDF. *)
Definition bad_page_1 (pageIndex : Z) : pageRun :=
  if (pageIndex =? 1)%Z
  then {| created := Some (Ok tt); saved := Some (Ok "<svg/>");
          uploaded := Some (Ok tt); progressed := Some (Ok tt) |}
  else good_run pageIndex.


End Batch.

(* ===================================================================== *)
(** ** Page normalisation ([normalizeSvgToA4])                          *)
(* ===================================================================== *)

Module Normalize.
Import Js Layout.

(** The view box [extractViewBoxFromSvg] reads from the source. *)
Record viewBox : Type := {
  vb_x : Q;
  vb_y : Q;
  vb_width : Q;
  vb_height : Q;
}.

(** The placement the transform reads: [placement.anchor] when it is a
    string, and [placement.offset.x], [placement.offset.y]. *)
Record placementRule : Type := {
  anchor : option string;
  offset_x : value;
  offset_y : value;
}.

(** Top left, top right, bottom left, bottom right. *)
Inductive corner : Type := TL | TR | BL | BR.

Definition upper (c : ascii) : ascii :=
  let n := N_of_ascii c in
  if (97 <=? n)%N && (n <=? 122)%N then ascii_of_N (n - 32) else c.

(** [s.toUpperCase()] on a byte string. *)
Fixpoint toUpperCase (s : string) : string :=
  match s with
  | EmptyString => EmptyString
  | String c t => String (upper c) (toUpperCase t)
  end.

(** [/suffix$/.test(s)] for a suffix of plain characters. *)
Definition ends_with (suffix s : string) : bool :=
  String.prefix (String.rev suffix) (String.rev s).

(** [chooseCorner(name).corner] *)
Definition chooseCorner (name : string) : corner :=
  if ends_with "_TOP_RIGHT" name then TR
  else if ends_with "_BOTTOM_LEFT" name then BL
  else if ends_with "_BOTTOM_RIGHT" name then BR
  else TL.

Section Transform.
Local Open Scope Q_scope.
Variables A4_WIDTH A4_HEIGHT SAFE_MARGIN : Q.

(** The corner of a box given by its top-left point and its size (y grows
    downwards). *)
Definition cornerPoint (c : corner) (left top w h : Q) : Q * Q :=
  match c with
  | TL => (left, top)
  | TR => (left + w, top)
  | BL => (left, top + h)
  | BR => (left + w, top + h)
  end.

(** The point an anchor name counts its offset from; [currentRef] is the
    chosen corner of the centred content. *)
Definition anchorBase (anchorRaw : string) (currentRef : Q * Q) : option (Q * Q) :=
  let a4W := A4_WIDTH in
  let a4H := A4_HEIGHT in
  if String.prefix "PAGE_" anchorRaw then
    Some (if ends_with "_TOP_RIGHT" anchorRaw then (a4W, 0)
          else if ends_with "_BOTTOM_LEFT" anchorRaw then (0, a4H)
          else if ends_with "_BOTTOM_RIGHT" anchorRaw then (a4W, a4H)
          else (0, 0))
  else if String.prefix "MARGIN_" anchorRaw then
    Some (if ends_with "_TOP_RIGHT" anchorRaw then (a4W - SAFE_MARGIN, SAFE_MARGIN)
          else if ends_with "_BOTTOM_LEFT" anchorRaw then (SAFE_MARGIN, a4H - SAFE_MARGIN)
          else if ends_with "_BOTTOM_RIGHT" anchorRaw
          then (a4W - SAFE_MARGIN, a4H - SAFE_MARGIN)
          else (SAFE_MARGIN, SAFE_MARGIN))
  else if String.prefix "CONTENT_" anchorRaw then Some currentRef
  else None.

(** The scale and the translation [normalizeSvgToA4] writes into the
    wrapper group, from the view box it extracted ([None] when there is
    none) and the placement rule. *)
Definition normalizeTransform (vb : option viewBox) (placement : option placementRule)
  : res (Q * Q * Q) :=
  match vb with
  | None => Throw "SVG is missing a valid viewBox"
  | Some vb =>
  if Qle_bool (vb_width vb) 0 || Qle_bool (vb_height vb) 0
  then Throw "SVG is missing a valid viewBox" else
  let a4W := A4_WIDTH in
  let a4H := A4_HEIGHT in
  if Qle_bool a4W 0 || Qle_bool a4H 0
  then Throw "SVG normalization failed: invalid A4 constants" else
  let scale := qmin (a4W / vb_width vb) (a4H / vb_height vb) in
  let tx := - vb_x vb * scale + (a4W - vb_width vb * scale) / 2 in
  let ty := - vb_y vb * scale + (a4H - vb_height vb * scale) / 2 in
  let shift :=
    match placement with
    | None => None
    | Some placement =>
        let anchorRaw :=
          match anchor placement with
          | Some a => toUpperCase (Worker.trim a)
          | None => ""
          end in
        match Number (offset_x placement), Number (offset_y placement) with
        | Fin offsetX, Fin offsetY =>
            if String.eqb anchorRaw "" then None else
            let contentW := vb_width vb * scale in
            let contentH := vb_height vb * scale in
            let currentRef :=
              cornerPoint (chooseCorner anchorRaw)
                ((a4W - contentW) / 2) ((a4H - contentH) / 2) contentW contentH in
            match anchorBase anchorRaw currentRef with
            | Some base =>
                Some (fst base + offsetX - fst currentRef,
                      snd base + offsetY - snd currentRef)
            | None => None
            end
        | _, _ => None
        end
    end in
  match shift with
  | Some (dx, dy) => Ok (scale, tx + dx, ty + dy)
  | None => Ok (scale, tx, ty)
  end
  end.

(** Where [translate(tx ty) scale(s)] puts a point of the source. *)
Definition transformed (t : Q * Q * Q) (p : Q * Q) : Q * Q :=
  let '(s, tx, ty) := t in (tx + s * fst p, ty + s * snd p).

End Transform.

End Normalize.

(* ===================================================================== *)
(** * Properties                                                          *)
(* ===================================================================== *)

Module SeriesFacts.
Import Js Series.











End SeriesFacts.

Module LayoutFacts.
Import Js Layout.
Local Open Scope Q_scope.

Lemma Qltb_true a b : Qltb a b = true <-> a < b.
Proof.
  unfold Qltb. rewrite negb_true_iff.
  destruct (Qle_bool b a) eqn:E.
  - apply Qle_bool_iff in E. split; [discriminate | intros H; exfalso; lra].
  - split; [intros _ | reflexivity].
    destruct (Qlt_le_dec a b) as [Hlt|Hle]; [exact Hlt|].
    apply Qle_bool_iff in Hle. congruence.
Qed.

Lemma Qltb_false a b : Qltb a b = false <-> b <= a.
Proof.
  destruct (Qltb a b) eqn:E.
  - apply Qltb_true in E. split; [discriminate | intros; exfalso; lra].
  - split; [intros _ | reflexivity].
    destruct (Qlt_le_dec a b) as [Hlt|Hle]; [|exact Hle].
    apply Qltb_true in Hlt. congruence.
Qed.

Lemma Qeq_bool_false a b : Qeq_bool a b = false <-> ~ a == b.
Proof.
  split.
  - intros E H. apply Qeq_bool_iff in H. congruence.
  - intros H. destruct (Qeq_bool a b) eqn:E; [|reflexivity].
    apply Qeq_bool_iff in E. contradiction.
Qed.

Ltac qcases :=
  repeat match goal with
  | |- context [Qltb ?a ?b] =>
      let E := fresh "E" in
      destruct (Qltb a b) eqn:E;
      [apply Qltb_true in E | apply Qltb_false in E]
  | |- context [Qeq_bool ?a ?b] =>
      let E := fresh "E" in
      destruct (Qeq_bool a b) eqn:E;
      [apply Qeq_bool_iff in E | apply Qeq_bool_false in E]
  end.

(** The slot count of a page follows [slots_rule], and lies in [1, 16]. *)
Lemma slotsPerPage_rule v :
  exists q, slotsPerPage_of (repeatPerPage_of v) = Fin q /\
            q == slots_rule v /\ 1 <= q <= 16.
Proof.
  unfold slotsPerPage_of, repeatPerPage_of, clamp_repeat, slots_rule, or_else.
  destruct v as [| |[|]|[| | |q]|]; simpl; unfold lt, gt; simpl; qcases;
    simpl; unfold lt, gt; simpl; qcases; simpl; unfold lt, gt; simpl; qcases;
    try (eexists; split; [reflexivity | split; [reflexivity | lra]]);
    try (eexists; split; [reflexivity | split; lra]); try lra.
Qed.

Lemma Qn_S n : Qn (S n) == Qn n + 1.
Proof.
  unfold Qn. rewrite Nat2Z.inj_succ. unfold Z.succ.
  rewrite inject_Z_plus. reflexivity.
Qed.

Lemma Qn_0 : Qn 0 == 0.
Proof. reflexivity. Qed.

Lemma Qn_le a b : Qn a <= Qn b <-> (a <= b)%nat.
Proof. unfold Qn. rewrite <- Zle_Qle. lia. Qed.

Lemma Qn_lt a b : Qn a < Qn b <-> (a < b)%nat.
Proof. unfold Qn. rewrite <- Zlt_Qlt. lia. Qed.

(** The loop [for (i = 0; i < q; i += 1)] runs ceil(q) times, given fuel
    beyond q. *)
Lemma for_loop_length fuel : forall i q,
  q <= Qn (i + fuel) ->
  (Qn i < q ->
   Qn (i + length (for_loop fuel i (Fin q))) - 1 < q
   /\ q <= Qn (i + length (for_loop fuel i (Fin q)))) /\
  (q <= Qn i -> length (for_loop fuel i (Fin q)) = 0%nat).
Proof.
  induction fuel as [|f IH]; intros i q Hfuel.
  - rewrite Nat.add_0_r in Hfuel. simpl. split; [intros; lra | reflexivity].
  - simpl. unfold lt, gt. fold (Qn i). qcases.
    + split; [intros _ | intros; lra].
      simpl. replace (i + S (length (for_loop f (S i) (Fin q))))%nat
        with (S i + length (for_loop f (S i) (Fin q)))%nat by lia.
      destruct (IH (S i) q) as [Hrun Hstop].
      { replace (S i + f)%nat with (i + S f)%nat by lia. exact Hfuel. }
      destruct (Qlt_le_dec (Qn (S i)) q) as [Hlt|Hle].
      * apply Hrun. exact Hlt.
      * rewrite (Hstop Hle), Nat.add_0_r. rewrite Qn_S in *. lra.
    + split; [intros; lra | reflexivity].
Qed.

Lemma for_loop_count q :
  1 <= q <= 16 ->
  let n := length (for_loop 17 0 (Fin q)) in
  (1 <= n <= 16)%nat /\ Qn n - 1 < q /\ q <= Qn n.
Proof.
  intros Hq n.
  destruct (for_loop_length 17 0 q) as [Hrun _].
  { change (Qn (0 + 17)) with 17. lra. }
  destruct Hrun as [Hlo Hhi]; [rewrite Qn_0; lra|].
  cbn [Nat.add] in Hlo, Hhi. fold n in Hlo, Hhi.
  split; [|split; assumption].
  split.
  - apply Qn_le. change (Qn 1) with 1. lra.
  - assert (Qn n < Qn 17) as H by (change (Qn 17) with 17; lra).
    apply Qn_lt in H. lia.
Qed.

Lemma array_length_Some m n :
  array_length m = Some n ->
  exists q, m = Fin q /\ q == Qn n /\ (Z.of_nat n < 2 ^ 32)%Z.
Proof.
  destruct m as [| | |q]; simpl; try discriminate.
  destruct (Qeq_bool q (inject_Z (Qfloor q))) eqn:E1; simpl; [|discriminate].
  destruct (Z.leb_spec 0 (Qfloor q)); simpl; [|discriminate].
  destruct (Z.ltb_spec (Qfloor q) (2 ^ 32)); [|discriminate].
  intros [= <-]. exists q. apply Qeq_bool_iff in E1.
  unfold Qn. rewrite Z2Nat.id by assumption. auto.
Qed.


Section EngineFacts.
Variables A4_WIDTH A4_HEIGHT SAFE_MARGIN : Q.
Variable snap : Q -> Q.

Lemma buildSlotLayoutPlan_length v spacing plan :
  buildSlotLayoutPlan A4_WIDTH A4_HEIGHT SAFE_MARGIN v spacing = Ok plan ->
  exists q,
    max (Fin 1) (Number (or_else v (JNum (Fin 1)))) = Fin q /\
    q == Qn (length plan).
Proof.
  unfold buildSlotLayoutPlan.
  destruct (array_length _) as [n|] eqn:E; [|discriminate].
  intros [= <-]. apply array_length_Some in E as (q & Hq & Hn & _).
  exists q. split; [exact Hq|].
  now rewrite length_map, length_seq.
Qed.

Lemma placed_grid bboxW bboxH q spacing page :
  1 <= q <= 16 ->
  match placed (placeGrid A4_WIDTH A4_HEIGHT SAFE_MARGIN snap bboxW bboxH
                  (Fin q) spacing page) with
  | Some n => q == Qn n
  | None => True
  end.
Proof.
  intros Hq. unfold placeGrid.
  destruct (buildSlotLayoutPlan _ _ _ _ _) as [plan|m] eqn:E; [|exact I].
  apply buildSlotLayoutPlan_length in E as (q' & Hq' & Hlen).
  simpl. rewrite !length_map. rewrite <- Hlen.
  revert Hq'. unfold or_else. simpl. qcases; [lra|]. simpl.
  unfold gt. qcases; intros [= <-]; lra.
Qed.

End EngineFacts.

(** C9 (as amended). For every render call the slot count of a page is a
    number in [1, 16] given by [slots_rule]: a missing [repeatPerPage],
    [NaN] and [0] give the default 4, a non-numeric object gives 1, any
    other number below 1 is raised to 1 and any number above 16 is reduced
    to 16; and whenever the call returns, the number of placements of the
    page is that count rounded up, hence between 1 and 16. *)
Theorem page_slot_count_bounds
    (A4_WIDTH A4_HEIGHT SAFE_MARGIN : Q) (snap : Q -> Q)
    (tc : ticketCrop) (bboxW bboxH : Q) (v spacing : value)
    (page : list drawCall) :
  (exists q, slotsPerPage_of (repeatPerPage_of v) = Fin q /\
             q == slots_rule v /\ 1 <= q <= 16) /\
  match placed (pagePlacements A4_WIDTH A4_HEIGHT SAFE_MARGIN snap
                  tc bboxW bboxH v spacing page) with
  | Some n => (1 <= n <= 16)%nat /\ Qn n - 1 < slots_rule v /\ slots_rule v <= Qn n
  | None => True
  end.
Proof.
  destruct (slotsPerPage_rule v) as (q & Hq & Hrule & Hb).
  split; [now exists q|].
  unfold pagePlacements, drawSourceFragment. rewrite Hq.
  destruct (isUserMmMode tc).
  - destruct (validateMm tc); [|exact I].
    unfold placeMm. destruct (gt _ _); [exact I|].
    simpl. rewrite !length_map.
    destruct (for_loop_count q Hb) as (Hn & Hlo & Hhi).
    split; [exact Hn|]. rewrite <- Hrule. split; assumption.
  - pose proof (placed_grid A4_WIDTH A4_HEIGHT SAFE_MARGIN snap bboxW bboxH q
                  (or_else spacing (JNum (Fin 0))) page Hb) as H.
    destruct (placed _) as [n|]; [|exact I].
    assert (Qn 1 <= Qn n /\ Qn n <= Qn 16) as [H1 H16]
      by (change (Qn 1) with 1; change (Qn 16) with 16; lra).
    apply Qn_le in H1, H16.
    split; [lia|]. rewrite <- Hrule. lra.
Qed.

(** A [repeatPerPage] of 0 is below 1, yet the page receives the default of
    four slots, not one. *)
Lemma repeat_zero_gives_four :
  0 < 1 /\
  slotsPerPage_of (repeatPerPage_of (JNum (Fin 0))) = Fin 4 /\
  placed (pagePlacements sample_A4_WIDTH sample_A4_HEIGHT sample_SAFE_MARGIN
            (fun q => q) crop_grid 200 100 (JNum (Fin 0)) JUndefined [])
  = Some 4%nat /\
  placed (pagePlacements sample_A4_WIDTH sample_A4_HEIGHT sample_SAFE_MARGIN
            (fun q => q) crop_grid 200 100 (JNum (Fin 0)) JUndefined [])
  <> Some 1%nat.
Proof.
  split; [reflexivity|]. split; [vm_compute; reflexivity|].
  split; [vm_compute; reflexivity | vm_compute; discriminate].
Qed.









End LayoutFacts.

Module HmacFacts.
Import Js Hmac.

Lemma append_cons c (a b : string) : String c a +:+ b = String c (a +:+ b).
Proof. reflexivity. Qed.

Lemma append_nil_l (b : string) : "" +:+ b = b.
Proof. reflexivity. Qed.

Lemma append_assoc (a b c : string) : (a +:+ b) +:+ c = a +:+ (b +:+ c).
Proof.
  induction a as [|x a IH]; [reflexivity|].
  now rewrite !append_cons, IH.
Qed.

Lemma append_inv_head (a x y : string) : a +:+ x = a +:+ y -> x = y.
Proof.
  induction a as [|c a IH]; [auto|].
  rewrite !append_cons. intros [= H]. auto.
Qed.

Lemma append_nil_r (a : string) : a +:+ "" = a.
Proof.
  induction a as [|x a IH]; [reflexivity|].
  now rewrite append_cons, IH.
Qed.

(** Every written character can be read back, whatever follows it. *)
Lemma unchunk_chunk c rest : unchunk (chunk c +:+ rest) = Some (c, rest).
Proof. destruct c as [[] [] [] [] [] [] [] []]; reflexivity. Qed.

Lemma unchunk_dquote rest : unchunk (String dquote rest) = None.
Proof. reflexivity. Qed.

(** An escaped string followed by the closing quote determines the string
    and what comes after it. *)
Lemma escape_closing_inj s : forall s' r r',
  escape s +:+ String dquote r = escape s' +:+ String dquote r' ->
  s = s' /\ r = r'.
Proof.
  induction s as [|c s IH]; intros [|c' s'] r r'; cbn [escape];
    rewrite ?append_nil_l.
  - intros [= H]. auto.
  - rewrite append_assoc. intros H.
    apply (f_equal unchunk) in H.
    rewrite unchunk_chunk, unchunk_dquote in H. discriminate.
  - rewrite append_assoc. intros H.
    apply (f_equal unchunk) in H.
    rewrite unchunk_chunk, unchunk_dquote in H. discriminate.
  - rewrite !append_assoc. intros H.
    apply (f_equal unchunk) in H. rewrite !unchunk_chunk in H.
    injection H as -> H. apply IH in H as [-> ->]. auto.
Qed.

Lemma quote_suffix_inj s s' r r' :
  quote s +:+ r = quote s' +:+ r' -> s = s' /\ r = r'.
Proof.
  unfold quote. rewrite !append_cons, !append_assoc, !append_cons, !append_nil_l.
  intros [= H]. now apply escape_closing_inj in H.
Qed.

Lemma quote_inj s s' : quote s = quote s' -> s = s'.
Proof.
  intros H. apply (f_equal (fun x => x +:+ "")) in H.
  now apply quote_suffix_inj in H.
Qed.

Lemma join_cons sep a b l :
  join sep (a :: b :: l) = a +:+ sep +:+ join sep (b :: l).
Proof. reflexivity. Qed.

(** Two canonical entry lists over the same keys that read the same, up to
    what follows them, carry the same values. *)
Lemma join_entries_inj ks : forall (f g : string -> string) r r',
  join "," (map (fun k => quote k +:+ ":" +:+ quote (f k)) ks) +:+ r
  = join "," (map (fun k => quote k +:+ ":" +:+ quote (g k)) ks) +:+ r' ->
  (forall k, In k ks -> f k = g k) /\ r = r'.
Proof.
  induction ks as [|k ks IH]; intros f g r r'.
  - cbn [map join]. rewrite !append_nil_l. intros ->. split; [intros k []|reflexivity].
  - destruct ks as [|k2 ks].
    + cbn [map join]. rewrite !append_assoc. intros H.
      apply append_inv_head, append_inv_head in H.
      apply quote_suffix_inj in H as [Hv ->].
      split; [|reflexivity]. intros k' [<-|[]]. exact Hv.
    + cbn [map] in *. rewrite !join_cons, !append_assoc. intros H.
      apply append_inv_head, append_inv_head in H.
      apply quote_suffix_inj in H as [Hv H].
      apply append_inv_head in H. apply IH in H as [Hrest ->].
      split; [|reflexivity]. intros k' [<-|Hin]; [exact Hv | now apply Hrest].
Qed.

Lemma insert_key_In x k l : In x (insert_key k l) <-> x = k \/ In x l.
Proof.
  induction l as [|h t IH]; cbn [insert_key].
  - simpl. intuition.
  - destruct (String.leb k h); simpl in *; rewrite ?IH; intuition.
Qed.

Lemma sort_keys_In x l : In x (sort_keys l) <-> In x l.
Proof.
  induction l as [|h t IH]; [reflexivity|].
  cbn [sort_keys fold_right]. rewrite insert_key_In.
  fold (sort_keys t). rewrite IH. simpl. intuition.
Qed.

Lemma lookup_first_In {A} k (fs : list (string * A)) :
  In k (map fst fs) -> exists v, lookup_first k fs = Some v.
Proof.
  induction fs as [|[k' v] fs IH]; [intros []|].
  cbn [map fst lookup_first]. intros [->|Hin].
  - rewrite String.eqb_refl. eauto.
  - destruct (String.eqb k k'); eauto.
Qed.

Lemma lookup_first_map {A B} (h : A -> B) k (fs : list (string * A)) :
  lookup_first k (map (fun kv => (fst kv, h (snd kv))) fs)
  = option_map h (lookup_first k fs).
Proof.
  induction fs as [|[k' v] fs IH]; [reflexivity|].
  cbn [map fst snd lookup_first]. destruct (String.eqb k k'); [reflexivity | exact IH].
Qed.

(** Two field lists with the same keys in the same order, none repeated,
    that agree on every key are the same list. *)
Lemma fields_ext {A} (fs : list (string * A)) : forall fs',
  map fst fs' = map fst fs ->
  List.NoDup (map fst fs) ->
  (forall k, In k (map fst fs) -> lookup_first k fs' = lookup_first k fs) ->
  fs' = fs.
Proof.
  induction fs as [|[k v] fs IH]; intros [|[k' v'] fs']; cbn [map fst];
    try discriminate; [reflexivity|].
  intros [= -> Hkeys] Hnd Hagree. inversion Hnd as [|? ? Hnotin Hnd']; subst.
  assert (v' = v) as ->.
  { specialize (Hagree k (or_introl eq_refl)). cbn [lookup_first] in Hagree.
    rewrite String.eqb_refl in Hagree. congruence. }
  f_equal. apply IH; [exact Hkeys | exact Hnd' |].
  intros k2 Hin. specialize (Hagree k2 (or_intror Hin)).
  cbn [lookup_first] in Hagree.
  destruct (String.eqb k2 k) eqn:E; [|exact Hagree].
  apply String.eqb_eq in E. subst. contradiction.
Qed.

Lemma filter_defined (rendered : list (string * option string)) :
  Forall (fun kr => is_Some (snd kr)) rendered ->
  filter (fun kr => is_Some (snd kr)) rendered = rendered.
Proof.
  induction 1 as [|kr l Hkr _ IH]; [reflexivity|].
  rewrite filter_cons_True by exact Hkr. now rewrite IH.
Qed.

(** The canonical string of a payload of string fields. *)
Lemma stableStringify_flat fs :
  stableStringify (flat fs)
  = Some ("{" +:+
          join "," (map (fun k =>
                           quote k +:+ ":" +:+
                           quote (default "" (lookup_first k fs)))
                        (sort_keys (map fst fs)))
          +:+ "}").
Proof.
  unfold flat. cbn [stableStringify]. f_equal.
  set (rendered := (fix each (fs0 : list (string * pval)) := _) _).
  assert (rendered = map (fun kv => (fst kv, Some (quote (snd kv)))) fs) as ->.
  { subst rendered. induction fs as [|[k v] fs IH]; [reflexivity|].
    cbn [map fst snd stableStringify]. now rewrite IH. }
  unfold stringify_object.
  rewrite filter_defined.
  2:{ apply List.Forall_map, List.Forall_forall. intros kv _. simpl. eauto. }
  rewrite List.map_map. cbn [fst].
  f_equal. f_equal. f_equal.
  apply List.map_ext_in. intros k Hin.
  apply (proj1 (sort_keys_In _ _)) in Hin.
  rewrite (lookup_first_map (fun v => Some (quote v))).
  destruct (lookup_first_In k fs Hin) as [v ->]. reflexivity.
Qed.

(** Changing the value of any field of a payload of string fields changes
    its canonical string. *)
Lemma stableStringify_flat_inj fs fs' :
  List.NoDup (map fst fs) ->
  map fst fs' = map fst fs ->
  stableStringify (flat fs') = stableStringify (flat fs) ->
  fs' = fs.
Proof.
  intros Hnd Hkeys. rewrite !stableStringify_flat, Hkeys. intros [= H].
  apply append_inv_head in H. apply join_entries_inj in H as [Hvals _].
  apply fields_ext; [exact Hkeys | exact Hnd |].
  intros k Hin.
  specialize (Hvals k (proj2 (sort_keys_In k _) Hin)).
  destruct (lookup_first_In k fs Hin) as [v Hv].
  assert (In k (map fst fs')) as Hin' by now rewrite Hkeys.
  destruct (lookup_first_In k fs' Hin') as [v' Hv'].
  rewrite Hv, Hv' in *. simpl in Hvals. now subst.
Qed.

Section SignerFacts.
Variable secret : option string.
Variable mac : string -> string -> string.

Lemma length_eqb_refl (a : string) :
  negb (String.length a =? String.length a)%nat = false.
Proof. now rewrite Nat.eqb_refl. Qed.

(** What [verifyJobPayload] returns once the payload has been signed. *)
Lemma verify_of_signed payload s candidate :
  signJobPayload secret mac payload = Ok s ->
  exists b, verifyJobPayload secret mac payload candidate = Ok b /\
            (b = true <-> candidate = PStr s /\ s <> "").
Proof.
  intros Hs. unfold verifyJobPayload.
  destruct candidate as [| | | |x| |];
    try (exists false; split; [reflexivity | split; [discriminate | intros [[=] _]]]).
  destruct (String.eqb_spec x "") as [->|Hx].
  - exists false. split; [reflexivity|].
    split; [discriminate | intros [[= <-] H]; contradiction].
  - rewrite Hs. cbn [mbind res_mbind bind].
    destruct (negb _) eqn:Hlen.
    + exists false. split; [reflexivity|].
      split; [discriminate | intros [[= ->] _]].
      now rewrite length_eqb_refl in Hlen.
    + exists (timingSafeEqual s x). split; [reflexivity|].
      unfold timingSafeEqual. rewrite String.eqb_eq. split.
      * intros ->. auto.
      * intros [[= ->] _]. reflexivity.
Qed.

Lemma verify_of_rejected payload m candidate :
  signJobPayload secret mac payload = Throw m ->
  verifyJobPayload secret mac payload candidate
  = match candidate with
    | PStr x => if String.eqb x "" then Ok false else Throw m
    | _ => Ok false
    end.
Proof.
  intros Hs. unfold verifyJobPayload. destruct candidate; try reflexivity.
  destruct (String.eqb _ _); [reflexivity|]. now rewrite Hs.
Qed.

(** With a secret configured, the payloads [signJobPayload] accepts are the
    well-formed ones, and the signature is the MAC of the canonical
    string. *)
Lemma sign_accepts_well_formed key payload :
  key <> "" ->
  signJobPayload (Some key) mac payload
  = if well_formed payload
    then Ok (mac key (default "" (stableStringify payload)))
    else if negb (truthy payload) || negb (is_object payload)
         then Throw "HMAC payload must be a plain object"
         else Throw "HMAC payload must be immutable only".
Proof.
  intros Hkey. apply String.eqb_neq in Hkey.
  unfold signJobPayload, well_formed. rewrite Hkey.
  destruct (truthy payload), (is_object payload); try reflexivity.
  cbn [negb orb andb]. destruct (_ || _ || _); reflexivity.
Qed.

End SignerFacts.

(** C8 (as amended). For every payload that [signJobPayload] accepts and
    every candidate signature, [verifyJobPayload] returns and does not
    throw; it returns true only for the non-empty signature of the payload
    itself, so every mismatch, also one in length, gives false. For a
    payload that [signJobPayload] rejects, it throws that error for a
    non-empty string candidate and returns false for any other candidate. *)
Theorem verify_total_on_signable
    (secret : option string) (mac : string -> string -> string)
    (payload candidate : pval) :
  match signJobPayload secret mac payload with
  | Ok s =>
      exists b, verifyJobPayload secret mac payload candidate = Ok b /\
                (b = true <-> candidate = PStr s /\ s <> "")
  | Throw m =>
      verifyJobPayload secret mac payload candidate
      = match candidate with
        | PStr x => if String.eqb x "" then Ok false else Throw m
        | _ => Ok false
        end
  end.
Proof.
  destruct (signJobPayload secret mac payload) as [s|m] eqn:Hs.
  - now apply verify_of_signed.
  - now apply verify_of_rejected.
Qed.

(** Verifying a payload that carries a forbidden field throws. *)
Lemma verify_throws_on_forbidden_field :
  verifyJobPayload (Some "k") toy_mac payload_with_pages (PStr "00")
  = Throw "HMAC payload must be immutable only".
Proof. reflexivity. Qed.

(** C4 (as amended). A payload that [signJobPayload] accepts verifies
    against its own non-empty signature. A changed payload verifies
    against that signature exactly when it signs to the same signature,
    and gives false when it signs to a different one. Changing the value
    of any field of a payload of string fields, such as
    [{jobId, outputKey, createdAt}], changes the canonical string that is
    signed. *)
Theorem sign_then_verify
    (secret : option string) (mac : string -> string -> string)
    (p p' : pval) (s : string) (fs fs' : list (string * string)) :
  signJobPayload secret mac p = Ok s -> s <> "" ->
  List.NoDup (map fst fs) -> map fst fs' = map fst fs -> fs' <> fs ->
  verifyJobPayload secret mac p (PStr s) = Ok true /\
  (verifyJobPayload secret mac p' (PStr s) = Ok true
   <-> signJobPayload secret mac p' = Ok s) /\
  (forall s', signJobPayload secret mac p' = Ok s' -> s' <> s ->
              verifyJobPayload secret mac p' (PStr s) = Ok false) /\
  stableStringify (flat fs') <> stableStringify (flat fs).
Proof.
  intros Hs Hne Hnd Hkeys Hdiff.
  split; [|split; [|split]].
  - destruct (verify_of_signed secret mac p s (PStr s) Hs) as (b & Hv & Hb).
    rewrite Hv. f_equal. apply Hb. auto.
  - destruct (signJobPayload secret mac p') as [s'|m] eqn:Hs'.
    + destruct (verify_of_signed secret mac p' s' (PStr s) Hs') as (b & Hv & Hb).
      rewrite Hv. split.
      * intros [= ->]. destruct Hb as [Hb _]. destruct (Hb eq_refl) as [[= ->] _].
        reflexivity.
      * intros [= ->]. f_equal. apply Hb. auto.
    + rewrite (verify_of_rejected secret mac p' m (PStr s) Hs').
      destruct (String.eqb s ""); split; discriminate.
  - intros s' Hs' Hns.
    destruct (verify_of_signed secret mac p' s' (PStr s) Hs') as (b & Hv & Hb).
    rewrite Hv. f_equal. destruct b; [|reflexivity].
    destruct Hb as [Hb _]. destruct (Hb eq_refl) as [[= ->] _]. contradiction.
  - intros Heq. apply Hdiff. now apply stableStringify_flat_inj.
Qed.

Lemma sign_then_verify_witness :
  verifyJobPayload (Some "k") toy_mac (flat payload_triple)
    (PStr (toy_mac "k" (default "" (stableStringify (flat payload_triple)))))
  = Ok true /\
  stableStringify (flat payload_triple_moved) <> stableStringify (flat payload_triple).
Proof.
  destruct (sign_then_verify (Some "k") toy_mac (flat payload_triple)
              (flat payload_triple_moved)
              (toy_mac "k" (default "" (stableStringify (flat payload_triple))))
              payload_triple payload_triple_moved)
    as (Hself & _ & _ & Hcanon).
  - reflexivity.
  - discriminate.
  - repeat constructor; simpl; intuition discriminate.
  - reflexivity.
  - discriminate.
  - split; assumption.
Defined.

(** Whatever the MAC, a payload whose field changed from [null] to [NaN]
    still verifies against the signature made before the change. *)
Lemma null_to_nan_still_verifies key (mac : string -> string -> string) s :
  signJobPayload (Some key) mac payload_null = Ok s -> s <> "" ->
  verifyJobPayload (Some key) mac payload_nan (PStr s) = Ok true.
Proof.
  intros Hs Hne.
  assert (signJobPayload (Some key) mac payload_nan = Ok s) as Hs' by exact Hs.
  destruct (verify_of_signed (Some key) mac payload_nan s (PStr s) Hs')
    as (b & Hv & Hb).
  rewrite Hv. f_equal. apply Hb. auto.
Qed.

Lemma changed_field_still_verifies :
  payload_nan <> payload_null /\
  signJobPayload (Some "k") toy_mac payload_null
  = Ok (toy_mac "k" (default "" (stableStringify payload_null))) /\
  verifyJobPayload (Some "k") toy_mac payload_nan
    (PStr (toy_mac "k" (default "" (stableStringify payload_null))))
  = Ok true.
Proof.
  split; [discriminate|]. split; [reflexivity|].
  apply null_to_nan_still_verifies; [reflexivity | discriminate].
Qed.

End HmacFacts.

Module LockFacts.
Import Js Lock.

Lemma lockKey_not_active d : lockKey d <> activeKey.
Proof. unfold lockKey, activeKey. discriminate. Qed.

Lemma lockKey_not_member d j : lockKey d <> memberKey j.
Proof. unfold lockKey, memberKey. discriminate. Qed.


Section ScriptFacts.
Variable lua_tonumber : string -> option Q.
Variables k_lock k_active k_member jobId : string.
Hypothesis lock_not_active : k_lock <> k_active.
Hypothesis lock_not_member : k_lock <> k_member.
Hypothesis member_not_active : k_member <> k_active.







End ScriptFacts.


(** One release of the lock held in [store_held]: the lock and the marker
    are gone and the count is 1; a second release leaves it at 1. *)
Lemma release_store_held :
  let once := fst (releaseRenderLock no_number true "d1" "j1" store_held) in
  let twice := fst (releaseRenderLock no_number true "d1" "j1" once) in
  once !! lockKey "d1" = None /\ once !! memberKey "j1" = None /\
  once !! activeKey = Some (VInt 1) /\ twice !! activeKey = Some (VInt 1).
Proof. repeat split; vm_compute; reflexivity. Qed.

End LockFacts.

Module WorkerFacts.
Import Js Hmac Lock Worker.

Section PipelineFacts.
Variable secret : option string.
Variable mac : string -> string -> string.
Variable lua_tonumber : string -> option Q.
Variable redis_up : bool.


(** The start of the merge uploads nothing, whatever its outcome. *)
Lemma mergeStart_uploads job w :
  uploads (fst (mergeStart secret mac job w)) = uploads w.
Proof.
  unfold mergeStart, update_if_status. repeat case_match; reflexivity.
Qed.

Lemma lookup_save_changes id change (docs : gmap string jobDoc) :
  save_changes id change docs !! id = change <$> docs !! id.
Proof. unfold save_changes. apply lookup_alter_eq. Qed.



End PipelineFacts.



(** A merge whose root id differs from the id in the signed payload is
    refused before the signature is checked, with the stores untouched. *)
Lemma merge_id_mismatch_rejected
    (secret : option string) (mac : string -> string -> string)
    (lua_tonumber : string -> option Q) (redis_up : bool)
    (job : workItem) (w : world) (root expected : string) (d : jobDoc)
    (payload : list (string * string)) (rendered : res string) :
  data_printJobId job = Some root -> root <> "" ->
  db w !! root = Some d ->
  job_status d = CREATED \/ job_status d = BATCH_RUNNING ->
  payloadHmac d = Some expected -> expected <> "" ->
  getStableHmacPayload d = Ok payload ->
  root <> _id d ->
  processMerge secret mac lua_tonumber redis_up job rendered w
  = (w, Throw ("Root printJobId mismatch: rootPrintJobId=" +:+ root
                 +:+ " payload.jobId=" +:+ _id d)).
Proof.
  intros Hdata Hroot Hdb Hst Hsig Hsig' Hpayload Hdiff.
  unfold processMerge, mergeStart. rewrite Hdata.
  apply String.eqb_neq in Hroot, Hsig', Hdiff. rewrite Hroot, Hdb.
  assert (negb (bool_decide (job_status d = BATCH_RUNNING))
          && negb (bool_decide (job_status d = CREATED)) = false) as ->.
  { destruct Hst as [-> | ->]; reflexivity. }
  rewrite Hsig, Hsig', Hpayload, Hdiff. reflexivity.
Qed.

(** C7, at a work item that names its job with upper-case hex digits: the
    merge is refused with the mismatch error, nothing is uploaded and the
    job is not moved to [MERGE_RUNNING]; but the message matches none of
    the patterns of [mapErrorCode], so the failure is recorded with the
    code UNKNOWN, not HMAC_FAILED. *)
Theorem root_id_mismatch_recorded_unknown :
  snd (processMerge (Some "k") toy_mac no_number true
         (merge_item "65F0C0FFEE0123456789ABCD") (Ok "%PDF-1.7") world_upper_id)
  = Throw mismatch_message /\
  uploads (fst (processMerge (Some "k") toy_mac no_number true
                  (merge_item "65F0C0FFEE0123456789ABCD") (Ok "%PDF-1.7")
                  world_upper_id)) = [] /\
  status_of "65F0C0FFEE0123456789ABCD"
    (fst (processMerge (Some "k") toy_mac no_number true
            (merge_item "65F0C0FFEE0123456789ABCD") (Ok "%PDF-1.7") world_upper_id))
  = Some CREATED /\
  mapErrorCode mismatch_message "UNKNOWN" = "UNKNOWN" /\
  status_of "65F0C0FFEE0123456789ABCD"
    (runMerge (Some "k") toy_mac no_number true
       (merge_item "65F0C0FFEE0123456789ABCD") (Ok "%PDF-1.7") world_upper_id)
  = Some FAILED /\
  errorCode_of "65F0C0FFEE0123456789ABCD"
    (runMerge (Some "k") toy_mac no_number true
       (merge_item "65F0C0FFEE0123456789ABCD") (Ok "%PDF-1.7") world_upper_id)
  = Some "UNKNOWN".
Proof. repeat split; vm_compute; reflexivity. Qed.

(** C1, at a failure reported while a merge completes: the failed handler
    reads the job in [MERGE_RUNNING]; the merge then moves it to [READY]
    by its conditional update; the handler's save still writes [FAILED]
    over it. The save is not conditioned on the status that was read. *)
Theorem failed_handler_overwrites_ready :
  failedRead (batch_item "65f0c0ffee0123456789abcd") upload_failed_message
    world_merging
  = Some (sample_job "65f0c0ffee0123456789abcd" MERGE_RUNNING) /\
  status_of "65f0c0ffee0123456789abcd" world_merged = Some READY /\
  status_of "65f0c0ffee0123456789abcd"
    (failedSave no_number true (batch_item "65f0c0ffee0123456789abcd")
       upload_failed_message
       (sample_job "65f0c0ffee0123456789abcd" MERGE_RUNNING) world_merged)
  = Some FAILED.
Proof. repeat split; vm_compute; reflexivity. Qed.

(** The handler's save marks the stored record failed whatever status it
    has at that moment. *)
Lemma failedSave_unconditional
    (lua_tonumber : string -> option Q) (redis_up : bool)
    (job : workItem) (err printJobId : string) (read stored : jobDoc) (w : world) :
  data_printJobId job = Some printJobId ->
  db w !! printJobId = Some stored ->
  status_of printJobId (failedSave lua_tonumber redis_up job err read w)
  = Some FAILED.
Proof.
  intros Hdata Hstored. unfold failedSave, status_of. rewrite Hdata.
  destruct (_ <=? _)%Z; cbn [release db with_db default id];
    rewrite lookup_save_changes, Hstored; reflexivity.
Qed.

(** The merge reaches [READY] only by its update conditioned on
    [MERGE_RUNNING]. *)
Lemma ready_requires_merge_running id key (docs : gmap string jobDoc) :
  snd (update_if_status id MERGE_RUNNING (set_ready key) docs) = true ->
  job_status <$> docs !! id = Some MERGE_RUNNING.
Proof.
  unfold update_if_status. destruct (docs !! id) as [d|]; [|discriminate].
  destruct (decide _) as [Hd|]; [|discriminate].
  intros _. simpl. now rewrite Hd.
Qed.

End WorkerFacts.

Module MergeFacts.
Import Js Hmac Lock Worker Records.

Section More.
Variable mac : string -> string -> string.
Variable lua_tonumber : string -> option Q.
Variable redis_up : bool.

Lemma getStableHmacPayload_shape d payload :
  getStableHmacPayload d = Ok payload ->
  exists k iso,
    payload = [("jobId", _id d); ("outputKey", k); ("createdAt", iso)] /\
    k <> "" /\ createdAt d = Some iso.
Proof.
  unfold getStableHmacPayload. intros H.
  destruct (String.eqb _ "") eqn:E; [discriminate|].
  destruct (createdAt d) as [iso|]; [|discriminate].
  injection H as <-. apply String.eqb_neq in E. eauto.
Qed.

Lemma sign_stable_payload key d payload :
  key <> "" ->
  getStableHmacPayload d = Ok payload ->
  signJobPayload (Some key) mac (flat payload)
  = Ok (mac key (default "" (stableStringify (flat payload)))).
Proof.
  intros Hkey Hp. destruct (getStableHmacPayload_shape _ _ Hp) as (k & iso & -> & _ & _).
  unfold signJobPayload. apply String.eqb_neq in Hkey. rewrite Hkey. reflexivity.
Qed.

Lemma mergeStart_signed key job w root d payload st :
  data_printJobId job = Some root -> root <> "" ->
  db w !! root = Some d ->
  job_status d = st -> st = CREATED \/ st = BATCH_RUNNING ->
  _id d = root ->
  getStableHmacPayload d = Ok payload ->
  key <> "" ->
  payloadHmac d = Some (mac key (default "" (stableStringify (flat payload)))) ->
  mac key (default "" (stableStringify (flat payload))) <> "" ->
  mergeStart (Some key) mac job w
  = (with_db w (<[root := set_merge_running st d]> (db w)),
     Ok {| rootPrintJobId := root; jobRead := d;
           documentId := getDocumentIdFromJobDoc d |}).
Proof.
  intros Hdata Hroot Hdb Hst Hcase Hid Hp Hkey Hsig Hne.
  unfold mergeStart. rewrite Hdata.
  pose proof Hroot as Hroot'. apply String.eqb_neq in Hroot'. rewrite Hroot', Hdb.
  assert (negb (bool_decide (job_status d = BATCH_RUNNING))
          && negb (bool_decide (job_status d = CREATED)) = false) as ->.
  { rewrite Hst. destruct Hcase as [-> | ->]; reflexivity. }
  rewrite Hsig. pose proof Hne as Hne'. apply String.eqb_neq in Hne'. rewrite Hne'.
  rewrite Hp, Hid, String.eqb_refl. cbn [negb].
  unfold verifyJobPayload. rewrite Hne'.
  rewrite (sign_stable_payload key d payload Hkey Hp).
  cbn [mbind res_mbind bind].
  rewrite Nat.eqb_refl. cbn [negb]. unfold timingSafeEqual. rewrite String.eqb_refl.
  unfold update_if_status. rewrite Hdb.
  assert ((if bool_decide (job_status d = CREATED) then CREATED else BATCH_RUNNING) = st) as ->.
  { rewrite Hst. destruct Hcase as [-> | ->]; reflexivity. }
  rewrite decide_True by exact Hst. reflexivity.
Qed.


Lemma processMerge_signed key job w root d payload st bytes :
  data_printJobId job = Some root -> root <> "" ->
  db w !! root = Some d ->
  job_status d = st -> st = CREATED \/ st = BATCH_RUNNING ->
  _id d = root ->
  getStableHmacPayload d = Ok payload ->
  key <> "" ->
  payloadHmac d = Some (mac key (default "" (stableStringify (flat payload)))) ->
  mac key (default "" (stableStringify (flat payload))) <> "" ->
  has_pdf_header bytes = true ->
  processMerge (Some key) mac lua_tonumber redis_up job (Ok bytes) w
  = (release lua_tonumber redis_up (getDocumentIdFromJobDoc d) root
       {| db :=
            <[root :=
                set_ready (finalKeyOf root d)
                  (set_progress (Z.max 0 (Z.min 100 (Z.max
                       (Z.max 0 (Z.min 100 (Z.max (progress d) 80))) 95)))
                     "FINAL_RENDER_DONE"
                     (set_progress (Z.max 0 (Z.min 100 (Z.max (progress d) 80)))
                        "MERGE_JOB_STARTED" (set_merge_running st d)))]>
              (db w);
          uploads := (uploads w ++ [(finalKeyOf root d, bytes)])%list;
          redis := redis w |},
     Ok (finalKeyOf root d)).
Proof.
  intros Hdata Hroot Hdb Hst Hcase Hid Hp Hkey Hsig Hne Hpdf.
  unfold processMerge.
  rewrite (mergeStart_signed key job w root d payload st
             Hdata Hroot Hdb Hst Hcase Hid Hp Hkey Hsig Hne).
  unfold mergeFinish, mergeBody, updateProgress. cbn [rootPrintJobId jobRead documentId].
  rewrite Hpdf. cbn [negb]. cbn [db uploads redis with_db].
  unfold update_if_status, save_changes.
  rewrite !lookup_alter_eq, lookup_insert_eq. cbn [fmap option_fmap option_map].
  rewrite decide_True by reflexivity.
  fold (finalKeyOf root d).
  unfold release, with_db. cbn [fst snd db uploads redis progress set_progress].
  f_equal. f_equal.
  apply map_eq. intros k. destruct (decide (k = root)) as [->|Hk].
  - rewrite !lookup_insert_eq. reflexivity.
  - rewrite !lookup_insert_ne, !lookup_alter_ne, lookup_insert_ne by congruence.
    reflexivity.
Qed.

Lemma carries_on_refl d : carries_on d d.
Proof. unfold carries_on. repeat split; reflexivity. Qed.

Lemma carries_on_trans d1 d2 d3 :
  carries_on d1 d2 -> carries_on d2 d3 -> carries_on d1 d3.
Proof.
  unfold carries_on. intros (?&?&?&?&?&?&?&?&?&?) (?&?&?&?&?&?&?&?&?&?).
  repeat split; try congruence; etrans; eassumption.
Qed.

Lemma db_carries_on_refl docs : db_carries_on docs docs.
Proof.
  intros id. destruct (docs !! id) eqn:E; [|reflexivity].
  eexists. split; [reflexivity | apply carries_on_refl].
Qed.

Lemma db_carries_on_trans a b c :
  db_carries_on a b -> db_carries_on b c -> db_carries_on a c.
Proof.
  intros Hab Hbc id. specialize (Hab id). specialize (Hbc id).
  destruct (a !! id) as [d|].
  - destruct Hab as (d' & Hb & Hdd'). rewrite Hb in Hbc.
    destruct Hbc as (d'' & Hc & Hd'). exists d''. split; [exact Hc|].
    eapply carries_on_trans; eassumption.
  - rewrite Hab in Hbc. exact Hbc.
Qed.

Lemma alter_carries_on (change : jobDoc -> jobDoc) id docs :
  (forall d, carries_on d (change d)) ->
  db_carries_on docs (alter change id docs).
Proof.
  intros Hch k. destruct (decide (k = id)) as [->|Hne].
  - rewrite lookup_alter_eq. destruct (docs !! id) as [d|]; cbn; eauto.
  - rewrite lookup_alter_ne by congruence.
    destruct (docs !! k) eqn:E; [|reflexivity].
    eexists. split; [reflexivity | apply carries_on_refl].
Qed.

Lemma update_if_status_carries_on id expected change docs :
  (forall d, carries_on d (change d)) ->
  db_carries_on docs (fst (update_if_status id expected change docs)).
Proof.
  intros Hch. unfold update_if_status.
  destruct (docs !! id) as [stored|] eqn:E; [|apply db_carries_on_refl].
  destruct (decide _); [|apply db_carries_on_refl]. cbn [fst].
  intros k. destruct (decide (k = id)) as [->|Hne].
  - rewrite E, lookup_insert_eq. eauto.
  - rewrite lookup_insert_ne by congruence.
    destruct (docs !! k) eqn:E'; [|reflexivity].
    eexists. split; [reflexivity | apply carries_on_refl].
Qed.

Lemma set_merge_running_carries_on st d : carries_on d (set_merge_running st d).
Proof. unfold carries_on. cbn. repeat split; try reflexivity; eexists; reflexivity. Qed.

Lemma set_ready_carries_on k d : carries_on d (set_ready k d).
Proof. unfold carries_on. cbn. repeat split; try reflexivity; eexists; reflexivity. Qed.

Lemma set_progress_carries_on p e d : carries_on d (set_progress p e d).
Proof.
  unfold carries_on. cbn. repeat split; try reflexivity; eexists; reflexivity.
Qed.

Lemma set_failed_carries_on c m e d : carries_on d (set_failed c m e d).
Proof. unfold carries_on. cbn. repeat split; try reflexivity; eexists; reflexivity. Qed.

Lemma mergeStart_carries_on secret job w :
  db_carries_on (db w) (db (fst (mergeStart secret mac job w))) /\
  uploads (fst (mergeStart secret mac job w)) = uploads w.
Proof.
  unfold mergeStart.
  repeat case_match; cbn [fst db uploads with_db];
    (split; [|reflexivity]); try apply db_carries_on_refl.
  all: match goal with
       | H : update_if_status ?i ?e ?c ?docs = (?r, _) |- db_carries_on _ ?r =>
           change r with (fst (r, true)); rewrite <- H;
           apply update_if_status_carries_on, set_merge_running_carries_on
       end.
Qed.

Lemma mergeBody_carries_on ctx rendered w :
  db_carries_on (db w) (db (fst (mergeBody ctx rendered w))) /\
  uploads w `prefix_of` uploads (fst (mergeBody ctx rendered w)).
Proof.
  unfold mergeBody, updateProgress, save_changes.
  destruct rendered as [bytes|m]; cbn [fst db uploads with_db].
  2:{ split; [|reflexivity]. apply alter_carries_on, set_progress_carries_on. }
  destruct (negb (has_pdf_header bytes)); cbn [fst db uploads with_db].
  { split; [|reflexivity]. apply alter_carries_on, set_progress_carries_on. }
  match goal with
  | |- context [update_if_status ?i ?e ?c ?docs] =>
      pose proof (update_if_status_carries_on i e c docs
                    (set_ready_carries_on _)) as Hup;
      destruct (update_if_status i e c docs) as [docs' [|]]
  end; cbn [fst db uploads with_db] in *.
  - split; [|eexists; reflexivity].
    eapply db_carries_on_trans; [|exact Hup].
    eapply db_carries_on_trans; apply alter_carries_on, set_progress_carries_on.
  - split; [|eexists; reflexivity].
    eapply db_carries_on_trans; apply alter_carries_on, set_progress_carries_on.
Qed.

Lemma onFailed_carries_on job msg w :
  db_carries_on (db w) (db (onFailed lua_tonumber redis_up job msg w)) /\
  uploads (onFailed lua_tonumber redis_up job msg w) = uploads w.
Proof.
  unfold onFailed. destruct (failedRead job msg w) as [d|].
  2:{ split; [apply db_carries_on_refl | reflexivity]. }
  unfold failedSave, save_changes.
  destruct (_ <=? _)%Z; cbn [release db uploads with_db];
    (split; [apply alter_carries_on, set_failed_carries_on | reflexivity]).
Qed.

Lemma runMerge_carries_on secret job rendered w :
  db_carries_on (db w) (db (runMerge secret mac lua_tonumber redis_up job rendered w)) /\
  uploads w `prefix_of`
    uploads (runMerge secret mac lua_tonumber redis_up job rendered w).
Proof.
  unfold runMerge, processMerge.
  pose proof (mergeStart_carries_on secret job w) as [Hs Hsu].
  destruct (mergeStart secret mac job w) as [w0 [ctx|m]]; cbn [fst] in *.
  - unfold mergeFinish.
    pose proof (mergeBody_carries_on ctx rendered w0) as [Hb Hbu].
    destruct (mergeBody ctx rendered w0) as [w1 r]; cbn [fst] in *.
    rewrite Hsu in Hbu.
    assert (Hrel : db_carries_on (db w)
                     (db (release lua_tonumber redis_up (documentId ctx)
                            (rootPrintJobId ctx) w1))).
    { cbn [release db]. eapply db_carries_on_trans; eassumption. }
    destruct r as [k|m].
    + split; [exact Hrel | exact Hbu].
    + match goal with
      | |- context [onFailed _ _ ?j ?m ?w] =>
          pose proof (onFailed_carries_on j m w) as [Hf Hfu]
      end.
      split; [eapply db_carries_on_trans; eassumption|].
      rewrite Hfu. exact Hbu.
  - pose proof (onFailed_carries_on job m w0) as [Hf Hfu].
    split; [eapply db_carries_on_trans; eassumption|].
    rewrite Hfu, Hsu. reflexivity.
Qed.

End More.



(** X2. A stored signature that is not the one of the job's stable
    payload stops the merge before anything is written: [processMerge]
    throws "HMAC verification failed" with the stores as they were; the
    failed handler then marks the job FAILED with the code HMAC_FAILED,
    nothing is uploaded, no other record changes, and the status route
    answers that the job cannot be retried. *)
Theorem tampered_signature_fails_closed
    (mac : string -> string -> string) (lua_tonumber : string -> option Q)
    (redis_up : bool) (key : string) (job : workItem) (w : world)
    (root : string) (d : jobDoc) (payload : list (string * string))
    (expected : string) (rendered : res string) :
  data_printJobId job = Some root -> root <> "" ->
  db w !! root = Some d ->
  job_status d = CREATED \/ job_status d = BATCH_RUNNING ->
  _id d = root ->
  getStableHmacPayload d = Ok payload ->
  key <> "" ->
  payloadHmac d = Some expected -> expected <> "" ->
  expected <> mac key (default "" (stableStringify (flat payload))) ->
  let w' := runMerge (Some key) mac lua_tonumber redis_up job rendered w in
  processMerge (Some key) mac lua_tonumber redis_up job rendered w
  = (w, Throw "HMAC verification failed") /\
  uploads w' = uploads w /\
  delete root (db w') = delete root (db w) /\
  exists d',
    db w' !! root = Some d' /\
    job_status d' = FAILED /\ errorCode d' = Some "HMAC_FAILED" /\
    output_key d' = output_key d /\ progress d' = progress d /\
    secureRenderStatus d'
    = Some {| reply_status := FAILED; canRetry := false; retryAfterMs := 0;
              reply_errorCode := Some "HMAC_FAILED" |}.
Proof.
  intros Hdata Hroot Hdb Hst Hid Hp Hkey Hsig Hne Hdiff w'.
  assert (Hproc : processMerge (Some key) mac lua_tonumber redis_up job rendered w
                  = (w, Throw "HMAC verification failed")).
  { unfold processMerge, mergeStart. rewrite Hdata.
    pose proof Hroot as Hroot'. apply String.eqb_neq in Hroot'. rewrite Hroot', Hdb.
    assert (negb (bool_decide (job_status d = BATCH_RUNNING))
            && negb (bool_decide (job_status d = CREATED)) = false) as ->.
    { destruct Hst as [-> | ->]; reflexivity. }
    rewrite Hsig. pose proof Hne as Hne'. apply String.eqb_neq in Hne'. rewrite Hne'.
    rewrite Hp, Hid, String.eqb_refl. cbn [negb].
    unfold verifyJobPayload. rewrite Hne'.
    rewrite (MergeFacts.sign_stable_payload mac key d payload Hkey Hp).
    cbn [mbind res_mbind bind].
    destruct (negb (_ =? _)%nat); [reflexivity|].
    unfold timingSafeEqual.
    assert (String.eqb (mac key (default "" (stableStringify (flat payload)))) expected
            = false) as ->; [|reflexivity].
    apply String.eqb_neq. congruence. }
  split; [exact Hproc|].
  subst w'. unfold runMerge. rewrite Hproc.
  unfold onFailed, failedRead. rewrite Hdata.
  pose proof Hroot as Hroot'. apply String.eqb_neq in Hroot'. rewrite Hroot'.
  change (String.eqb "HMAC verification failed" INVALID_LIFECYCLE) with false.
  cbv iota. rewrite Hdb.
  assert (bool_decide (job_status d = READY) = false) as ->.
  { destruct Hst as [-> | ->]; reflexivity. }
  unfold failedSave. rewrite Hdata. cbn [default].
  change (mapErrorCode "HMAC verification failed" "UNKNOWN") with "HMAC_FAILED".
  unfold save_changes.
  destruct (_ <=? _)%Z; cbn [release db uploads with_db id].
  all: split; [reflexivity|].
  all: split; [apply map_eq; intros k; destruct (decide (k = root)) as [->|Hk];
               [rewrite !lookup_delete_eq; reflexivity
               |rewrite !lookup_delete_ne, lookup_alter_ne by congruence; reflexivity]|].
  all: rewrite lookup_alter_eq, Hdb; cbn [fmap option_fmap option_map].
  all: eexists; split; [reflexivity|]; repeat split; reflexivity.
Qed.

Lemma tampered_signature_fails_closed_witness :
  status_of "65f0c0ffee0123456789abcd"
    (runMerge (Some "k") toy_mac no_number true
       (merge_item "65f0c0ffee0123456789abcd") (Ok "%PDF-1.7")
       (world_of "65f0c0ffee0123456789abcd"
          (sample_job "65f0c0ffee0123456789abcd" CREATED)))
  = Some FAILED /\
  uploads (runMerge (Some "k") toy_mac no_number true
             (merge_item "65f0c0ffee0123456789abcd") (Ok "%PDF-1.7")
             (world_of "65f0c0ffee0123456789abcd"
                (sample_job "65f0c0ffee0123456789abcd" CREATED)))
  = [].
Proof.
  destruct (tampered_signature_fails_closed toy_mac no_number true "k"
              (merge_item "65f0c0ffee0123456789abcd")
              (world_of "65f0c0ffee0123456789abcd"
                 (sample_job "65f0c0ffee0123456789abcd" CREATED))
              "65f0c0ffee0123456789abcd"
              (sample_job "65f0c0ffee0123456789abcd" CREATED)
              [("jobId", "65f0c0ffee0123456789abcd");
               ("outputKey", "documents/final/a.pdf");
               ("createdAt", "2024-03-01T10:00:00.000Z")]
              "5f2b" (Ok "%PDF-1.7"))
    as (_ & Hup & _ & d' & Hd' & Hst & _);
    try reflexivity; try discriminate.
  - left; reflexivity.
  - split; [|exact Hup]. unfold status_of. rewrite Hd'. cbn. now rewrite Hst.
Defined.

End MergeFacts.

Module SealFacts.
Import Js Hmac Lock Worker Seal HmacFacts Records MergeFacts.

Lemma rev_app_append s : forall acc, String.rev_app s acc = String.rev s +:+ acc.
Proof.
  unfold String.rev. induction s as [|c s IH]; intros acc; cbn.
  - now rewrite append_nil_l.
  - rewrite IH, (IH (String c "")), append_assoc, append_cons, append_nil_l.
    reflexivity.
Qed.

Lemma rev_cons c s : String.rev (String c s) = String.rev s +:+ String c "".
Proof. unfold String.rev at 1. cbn. apply rev_app_append. Qed.

Lemma rev_append a : forall b, String.rev (a +:+ b) = String.rev b +:+ String.rev a.
Proof.
  induction a as [|c a IH]; intros b.
  - rewrite append_nil_l. change (String.rev "") with "". now rewrite append_nil_r.
  - rewrite append_cons, !rev_cons, IH, append_assoc. reflexivity.
Qed.

Lemma rev_involutive s : String.rev (String.rev s) = s.
Proof.
  induction s as [|c s IH]; [reflexivity|].
  rewrite rev_cons, rev_append, IH. reflexivity.
Qed.

Lemma ltrim_idempotent s : ltrim (ltrim s) = ltrim s.
Proof.
  induction s as [|c s IH]; [reflexivity|]. cbn.
  destruct (is_space c) eqn:E; [exact IH|]. cbn. now rewrite E.
Qed.

Lemma ltrim_before_solid c r : is_space c = false ->
  forall u, exists v, ltrim (u +:+ String c r) = v +:+ String c r.
Proof.
  intros Hc. induction u as [|a u IH].
  - exists "". rewrite !append_nil_l. cbn. now rewrite Hc.
  - rewrite append_cons. cbn. destruct (is_space a).
    + exact IH.
    + exists (String a u). now rewrite append_cons.
Qed.

Lemma ltrim_trim s : ltrim (trim s) = trim s.
Proof.
  unfold trim. destruct (ltrim s) as [|c t] eqn:E; [reflexivity|].
  assert (Hc : is_space c = false).
  { clear -E. induction s as [|a s IH]; [discriminate|]. cbn in E.
    destruct (is_space a) eqn:Ea; [now apply IH|]. now injection E as <- _. }
  rewrite rev_cons.
  destruct (ltrim_before_solid c "" Hc (String.rev t)) as (v & ->).
  rewrite rev_append. change (String.rev (String c "")) with (String c "").
  rewrite append_cons, append_nil_l. cbn. now rewrite Hc.
Qed.

Lemma trim_idempotent s : trim (trim s) = trim s.
Proof.
  unfold trim at 1. rewrite ltrim_trim. unfold trim.
  now rewrite rev_involutive, ltrim_idempotent.
Qed.

Lemma first_truthy_trimmed_fixed cands :
  let K := first_truthy (map trimmed cands) in
  trim K = K.
Proof.
  induction cands as [|[s|] r IH]; cbn -[trim]; [reflexivity| |exact IH].
  destruct (String.eqb (trim s) "") eqn:E; [exact IH|]. apply trim_idempotent.
Qed.

Lemma sealJob_inv secret mac d d' :
  sealJob secret mac d = Ok d' ->
  exists key K iso,
    secret = Some key /\ key <> "" /\ K <> "" /\ trim K = K /\
    getStableHmacPayload d = Ok [("jobId", _id d); ("outputKey", K); ("createdAt", iso)] /\
    d' = with_signature (Some K)
           (mac key (default "" (stableStringify
              (flat [("jobId", _id d); ("outputKey", K); ("createdAt", iso)])))) d /\
    getStableHmacPayload d'
    = Ok [("jobId", _id d); ("outputKey", K); ("createdAt", iso)].
Proof.
  unfold sealJob. intros H.
  destruct (getStableHmacPayload d) as [payload|m] eqn:Hp; [|discriminate].
  cbn [mbind res_mbind bind] in H.
  destruct (getStableHmacPayload_shape d payload Hp) as (K & iso & -> & HK & Hiso).
  unfold signJobPayload in H. cbn in H.
  destruct secret as [key|]; [|discriminate].
  destruct (String.eqb key "") eqn:Hkey; [discriminate|].
  cbn in H. injection H as <-.
  apply String.eqb_neq in Hkey.
  assert (HKfix : trim K = K).
  { unfold getStableHmacPayload in Hp.
    destruct (String.eqb _ "") eqn:E in Hp; [discriminate|].
    rewrite Hiso in Hp. injection Hp as <-.
    apply (first_truthy_trimmed_fixed
             [metadata_outputKey d; hmacPayload_outputKey d; outputKey d]). }
  exists key, K, iso. repeat split; try assumption; try reflexivity.
  unfold getStableHmacPayload. cbn [with_signature metadata_outputKey
    hmacPayload_outputKey createdAt _id outputKey].
  pose proof HK as HK'. apply String.eqb_neq in HK'. rewrite HK'.
  cbn [trimmed first_truthy]. rewrite HKfix, HK'.
  assert (match trimmed (metadata_outputKey d) with
          | Some s => if String.eqb s "" then K else s
          | None => K
          end = K) as ->.
  { unfold getStableHmacPayload in Hp.
    destruct (String.eqb _ "") eqn:E in Hp; [discriminate|].
    rewrite Hiso in Hp. injection Hp as HKdef.
    cbn [first_truthy] in HKdef.
    destruct (trimmed (metadata_outputKey d)) as [m|]; [|reflexivity].
    destruct (String.eqb m ""); [reflexivity | exact HKdef]. }
  rewrite HK', Hiso. reflexivity.
Qed.

(** X3. Sealing and merging agree. A job sealed as the request handler
    seals it ([hmacPayload] from [getStableHmacPayload], [payloadHmac] from
    [signJobPayload]) yields the same stable payload when the worker
    recomputes it, passes [verifyJobPayload], and a merge delivery with a
    PDF render leaves it READY, the document stored under the output key
    that was signed. *)
Theorem sealed_job_merges
    (secret : option string) (mac : string -> string -> string)
    (lua_tonumber : string -> option Q) (redis_up : bool)
    (d d' : jobDoc) (sig : string) (job : workItem) (w : world) (bytes : string) :
  sealJob secret mac d = Ok d' ->
  payloadHmac d' = Some sig -> sig <> "" ->
  _id d <> "" ->
  job_status d = CREATED \/ job_status d = BATCH_RUNNING ->
  db w !! _id d = Some d' ->
  data_printJobId job = Some (_id d) ->
  has_pdf_header bytes = true ->
  let w' := runMerge secret mac lua_tonumber redis_up job (Ok bytes) w in
  exists payload signedKey,
    getStableHmacPayload d = Ok payload /\
    getStableHmacPayload d' = Ok payload /\
    lookup_first "outputKey" payload = Some signedKey /\
    verifyJobPayload secret mac (flat payload) (PStr sig) = Ok true /\
    status_of (_id d) w' = Some READY /\
    uploads w' = (uploads w ++ [(signedKey, bytes)])%list.
Proof.
  intros Hseal Hsig Hne Hroot Hst Hdb Hdata Hpdf w'.
  destruct (sealJob_inv secret mac d d' Hseal)
    as (key & K & iso & -> & Hkey & HK & HKfix & Hp & Hd' & Hp').
  assert (Hsig' : sig = mac key (default "" (stableStringify
             (flat [("jobId", _id d); ("outputKey", K); ("createdAt", iso)])))).
  { rewrite Hd' in Hsig. cbn in Hsig. now injection Hsig. }
  assert (Hid : _id d' = _id d) by (rewrite Hd'; reflexivity).
  assert (Hst' : job_status d' = job_status d) by (rewrite Hd'; reflexivity).
  assert (Hfinal : finalKeyOf (_id d) d' = K).
  { unfold finalKeyOf, outputKey. rewrite Hd'. cbn [with_signature hmacPayload_outputKey].
    pose proof HK as HK'. apply String.eqb_neq in HK'. rewrite HK'.
    cbn [trimmed]. now rewrite HKfix, HK'. }
  exists [("jobId", _id d); ("outputKey", K); ("createdAt", iso)], K.
  split; [exact Hp|]. split; [exact Hp'|]. split; [reflexivity|].
  split.
  { unfold verifyJobPayload. pose proof Hne as Hne'.
    apply String.eqb_neq in Hne'. rewrite Hne'.
    rewrite (sign_stable_payload mac key d' _ Hkey Hp').
    cbn [mbind res_mbind bind]. rewrite <- Hsig'.
    rewrite Nat.eqb_refl. cbn [negb]. unfold timingSafeEqual.
    now rewrite String.eqb_refl. }
  subst w'. unfold runMerge.
  rewrite (processMerge_signed mac lua_tonumber redis_up key job w (_id d) d'
             [("jobId", _id d); ("outputKey", K); ("createdAt", iso)]
             (job_status d) bytes Hdata Hroot Hdb Hst' Hst Hid Hp' Hkey).
  - rewrite Hfinal. split; [|reflexivity].
    unfold status_of. cbn [release db]. rewrite lookup_insert_eq. reflexivity.
  - rewrite <- Hsig'. rewrite Hd'. cbn. now rewrite Hsig'.
  - now rewrite <- Hsig'.
  - exact Hpdf.
Qed.

Lemma sealed_job_merges_witness :
  sealJob (Some "k") toy_mac (sample_job "65f0c0ffee0123456789abcd" CREATED)
  = Ok signed_job /\
  status_of "65f0c0ffee0123456789abcd"
    (runMerge (Some "k") toy_mac no_number true
       (merge_item "65f0c0ffee0123456789abcd") (Ok "%PDF-1.7") world_signed)
  = Some READY.
Proof.
  split; [reflexivity|].
  assert (Hne : toy_mac "k"
                  (default "" (stableStringify
                     (flat [("jobId", "65f0c0ffee0123456789abcd");
                            ("outputKey", "documents/final/a.pdf");
                            ("createdAt", "2024-03-01T10:00:00.000Z")]))) <> "").
  { intros H. vm_compute in H. discriminate H. }
  assert (Hid : "65f0c0ffee0123456789abcd" <> "") by discriminate.
  destruct (sealed_job_merges (Some "k") toy_mac no_number true
              (sample_job "65f0c0ffee0123456789abcd" CREATED) signed_job _
              (merge_item "65f0c0ffee0123456789abcd") world_signed "%PDF-1.7"
              eq_refl eq_refl Hne Hid (or_introl eq_refl) eq_refl eq_refl eq_refl)
    as (payload & signedKey & _ & _ & _ & _ & Hst & _).
  exact Hst.
Defined.

End SealFacts.

Module NumberingFacts.
Import Js Series SeriesFacts.



Lemma String_of_int_nonempty z : String_of_int z <> "".
Proof.
  unfold String_of_int. destruct z as [|p|p]; cbn; try discriminate.
  pose proof (DecimalPos.Unsigned.to_uint_nonnil p) as H.
  destruct (Pos.to_uint p); try discriminate. congruence.
Qed.








End NumberingFacts.

Module DeliveryFacts.
Import Js Hmac Lock Worker Batch HmacFacts Records MergeFacts.

Lemma string_of_uint_number_chars d :
  number_chars (NilEmpty.string_of_uint d) = true.
Proof. induction d; cbn; auto. Qed.

Lemma String_of_int_number_chars z : number_chars (String_of_int z) = true.
Proof.
  unfold String_of_int. destruct (Z.to_int z); cbn;
    apply string_of_uint_number_chars.
Qed.

Lemma lower_number_char c : is_number_char c = true -> lower c = c.
Proof.
  destruct c as [[] [] [] [] [] [] [] []]; cbn; intros H;
    first [reflexivity | discriminate H].
Qed.

Lemma prefix_ci_before_number p : forall x c r,
  wordy p = true -> is_number_char c = true ->
  prefix_ci p (x +:+ String c r) = prefix_ci p x.
Proof.
  induction p as [|a p IH]; intros x c r Hp Hc; [now destruct x|].
  cbn in Hp. apply andb_true_iff in Hp as [Ha Hp]. apply negb_true_iff in Ha.
  destruct x as [|b x].
  - rewrite append_nil_l. cbn [prefix_ci]. rewrite (lower_number_char c Hc).
    destruct (Ascii.eqb_spec (lower a) c) as [E|]; [|reflexivity].
    rewrite E in Ha. congruence.
  - rewrite append_cons. cbn [prefix_ci]. now rewrite IH.
Qed.

Lemma test_ci_unfold p s :
  test_ci p s
  = prefix_ci p s || match s with EmptyString => false | String _ t => test_ci p t end.
Proof. destruct s; reflexivity. Qed.

Lemma test_ci_split p a : forall c r,
  wordy p = true -> is_number_char c = true ->
  test_ci p (a +:+ String c r) = test_ci p a || test_ci p r.
Proof.
  induction a as [|b a IH]; intros c r Hp Hc.
  - rewrite append_nil_l, (test_ci_unfold p (String c r)), (test_ci_unfold p "").
    rewrite <- (append_nil_l (String c r)), prefix_ci_before_number by assumption.
    now rewrite orb_false_r.
  - rewrite append_cons, (test_ci_unfold p (String b _)), (test_ci_unfold p (String b a)).
    rewrite <- append_cons, prefix_ci_before_number by assumption.
    rewrite IH by assumption. now rewrite orb_assoc.
Qed.

Lemma test_ci_skip p d : forall r,
  wordy p = true -> number_chars d = true ->
  test_ci p (d +:+ r) = test_ci p r.
Proof.
  induction d as [|c d IH]; intros r Hp Hd; [now rewrite append_nil_l|].
  cbn in Hd. apply andb_true_iff in Hd as [Hc Hd].
  rewrite <- (append_nil_l (String c d +:+ r)), append_cons.
  rewrite test_ci_split by assumption.
  rewrite IH by assumption.
  destruct p as [|a p]; [now destruct r|]. reflexivity.
Qed.

Lemma test_ci_around p a d r :
  wordy p = true -> number_chars d = true -> d <> "" ->
  test_ci p (a +:+ d +:+ r) = test_ci p a || test_ci p r.
Proof.
  intros Hp Hd Hne. destruct d as [|c d]; [congruence|].
  cbn in Hd. apply andb_true_iff in Hd as [Hc Hd].
  rewrite append_cons, test_ci_split by assumption.
  now rewrite test_ci_skip.
Qed.

Lemma timeout_code label n ms fallback :
  In label ["vector render page "; "pdf save page "; "s3 upload page ";
            "progress update page "] ->
  mapErrorCode (timeoutMessage (label +:+ String_of_int n) ms) fallback = "TIMEOUT".
Proof.
  intros Hl.
  assert (Hgen : forall p, wordy p = true ->
            test_ci p (timeoutMessage (label +:+ String_of_int n) ms)
            = test_ci p ("[TIMEOUT] " +:+ label)
              || (test_ci p " after " || test_ci p "ms")).
  { intros p Hp. unfold timeoutMessage.
    rewrite (append_assoc label), <- (append_assoc "[TIMEOUT] " label).
    rewrite test_ci_around;
      [|exact Hp | apply String_of_int_number_chars | apply NumberingFacts.String_of_int_nonempty].
    f_equal.
    rewrite test_ci_around;
      [|exact Hp | apply String_of_int_number_chars | apply NumberingFacts.String_of_int_nonempty].
    reflexivity. }
  unfold mapErrorCode. rewrite !Hgen by reflexivity.
  assert (String.eqb (timeoutMessage (label +:+ String_of_int n) ms)
            "SVG_NORMALIZE_TIMEOUT" = false) as ->.
  { unfold timeoutMessage. rewrite append_cons. reflexivity. }
  cbn in Hl. destruct Hl as [<-|[<-|[<-|[<-|[]]]]]; vm_compute; reflexivity.
Qed.

Section LoopFacts.
Variable secret : option string.
Variable mac : string -> string -> string.
Variable lua_tonumber : string -> option Q.
Variable redis_up : bool.
Variable validateVectorMetadata : jobDoc -> bool.
Variable totalPages_of : jobDoc -> Z.
Variable runs : Z -> pageRun.

Lemma update_if_status_frame id expected change (docs : gmap string jobDoc) k :
  k <> id -> fst (update_if_status id expected change docs) !! k = docs !! k.
Proof.
  intros Hk. unfold update_if_status.
  destruct (docs !! id); [|reflexivity]. destruct (decide _); [|reflexivity].
  cbn. now rewrite lookup_insert_ne by congruence.
Qed.

Lemma batchLoop_spec id data pages : forall jobDoc out w,
  let r := batchLoop totalPages_of runs id data pages jobDoc out w in
  exists k,
    (k <= length pages)%nat /\
    uploads (fst r)
    = (uploads w ++ map (fun i => (tmpKey id i, pageBytes runs i)) (take k pages))%list /\
    Forall (fun i => has_pdf_header (pageBytes runs i) = true) (take k pages) /\
    (forall k', k' <> id -> db (fst r) !! k' = db w !! k') /\
    redis (fst r) = redis w /\
    match snd r with
    | Ok out' =>
        k = length pages /\
        out' = (out ++ map (fun i => (i, tmpKey id i)) pages)%list
    | Throw _ => True
    end.
Proof.
  induction pages as [|i rest IH]; intros jobDoc out w; cbn zeta.
  - exists 0%nat. cbn. rewrite !app_nil_r. repeat split; auto.
  - cbn [batchLoop].
    assert (Hstop : forall (w0 : world) (m : string),
              w0 = w ->
              exists k, (k <= length (i :: rest))%nat /\
                uploads w0
                = (uploads w ++ map (fun i => (tmpKey id i, pageBytes runs i))
                                   (take k (i :: rest)))%list /\
                Forall (fun i => has_pdf_header (pageBytes runs i) = true)
                  (take k (i :: rest)) /\
                (forall k', k' <> id -> db w0 !! k' = db w !! k') /\
                redis w0 = redis w /\ True).
    { intros w0 m ->. exists 0%nat. cbn. rewrite app_nil_r.
      repeat split; auto. lia. }
    destruct (withTimeout (created (runs i)) _ _) as [[]|m]; [|now apply (Hstop w m)].
    destruct (withTimeout (saved (runs i)) _ _) as [bytes|m] eqn:Hsaved;
      [|now apply (Hstop w m)].
    destruct (has_pdf_header bytes) eqn:Hpdf; cbn [negb];
      [|now apply (Hstop w SECURITY_VIOLATION)].
    assert (Hbytes : pageBytes runs i = bytes).
    { unfold pageBytes. unfold withTimeout in Hsaved.
      destruct (saved (runs i)) as [[b|]|]; congruence. }
    destruct (withTimeout (uploaded (runs i)) _ _) as [[]|m]; [|now apply (Hstop w m)].
    destruct (withTimeout (progressed (runs i)) _ _) as [[]|m].
    + unfold updateProgress. cbv beta iota zeta.
      match goal with
      | |- context [batchLoop _ _ _ _ rest ?j ?o ?w1] =>
          pose proof (IH j o w1) as H; cbn zeta in H;
          set (r' := batchLoop totalPages_of runs id data rest j o w1) in *;
          destruct H as (k & Hk & Hup & Hall & Hfr & Hre & Hres)
      end.
      cbn [uploads db redis with_db] in Hup, Hfr, Hre.
      exists (S k). cbn [take length map].
      split; [lia|]. split; [rewrite Hup, Hbytes, <- app_assoc; reflexivity|].
      split; [constructor; [now rewrite Hbytes | exact Hall]|].
      split.
      { intros k' Hk'. rewrite (Hfr k' Hk'). unfold save_changes.
        now rewrite lookup_alter_ne by congruence. }
      split; [exact Hre|].
      destruct (snd _); [|exact I].
      destruct Hres as [-> ->]. split; [reflexivity|].
      now rewrite <- app_assoc.
    + exists 1%nat. cbn [take length map fst snd uploads db redis].
      rewrite take_0. cbn [map]. rewrite <- Hbytes in Hpdf.
      split; [lia|]. split; [now rewrite Hbytes|].
      split; [constructor; [exact Hpdf | constructor]|].
      repeat split; auto.
Qed.

Lemma batchStart_spec job w :
  let r := batchStart validateVectorMetadata job w in
  uploads (fst r) = uploads w /\ redis (fst r) = redis w /\
  (forall k, k <> targetOf job -> db (fst r) !! k = db w !! k).
Proof.
  unfold batchStart, targetOf.
  destruct (data_printJobId job) as [id|]; [|now cbn].
  destruct (db w !! id) as [d|] eqn:Hd; [|now cbn].
  destruct (_ || _); [now cbn|].
  assert (Hw1 : forall p : world * option jobDoc,
            (p = (w, Some d) \/ p = (w, db w !! id) \/
             exists docs, p = (with_db w docs, docs !! id) /\
               docs = fst (update_if_status id CREATED set_batch_running (db w))) ->
            let r := (let (w1, reread) := p in
                      match reread with
                      | Some jobDoc =>
                          if negb (bool_decide (job_status jobDoc = BATCH_RUNNING))
                          then (w1, discardInvalidLifecycle)
                          else if negb (validateVectorMetadata jobDoc)
                          then (w1, Throw "Invalid vector metadata")
                          else if String.eqb (default "" (payloadHmac jobDoc)) ""
                          then (w1, Throw "payloadHmac missing on job")
                          else (w1, Ok jobDoc)
                      | None => (w1, Throw "PrintJob not found")
                      end) in
            uploads (fst r) = uploads w /\ redis (fst r) = redis w /\
            (forall k, k <> id -> db (fst r) !! k = db w !! k)).
  { intros [w1 reread] Hp. cbn zeta.
    assert (Hw : uploads w1 = uploads w /\ redis w1 = redis w /\
                 (forall k, k <> id -> db w1 !! k = db w !! k)).
    { destruct Hp as [[= -> _]|[[= -> _]|(docs & [= -> _] & ->)]]; cbn; auto.
      repeat split; auto. intros k Hk. now apply update_if_status_frame. }
    destruct reread as [j|]; [|exact Hw].
    repeat (destruct (_ : bool); [exact Hw|]). exact Hw. }
  apply Hw1.
  destruct (bool_decide (job_status d = CREATED)); [|now left].
  destruct (update_if_status id CREATED set_batch_running (db w)) as [docs [|]] eqn:E.
  - right. right. exists docs. split; reflexivity.
  - rewrite Hd. now left.
Qed.

Lemma batchStart_stale job w d :
  db w !! targetOf job = Some d ->
  job_status d = MERGE_RUNNING \/ job_status d = READY \/ job_status d = FAILED ->
  exists m, batchStart validateVectorMetadata job w = (w, Throw m) /\
            (data_printJobId job <> None -> m = INVALID_LIFECYCLE).
Proof.
  intros Hd Hst. unfold batchStart, targetOf in *.
  destruct (data_printJobId job) as [id|]; [|eexists; split; [reflexivity|congruence]].
  rewrite Hd.
  destruct Hst as [-> | [-> | ->]]; eexists; (split; [reflexivity|auto]).
Qed.

Lemma processBatch_spec job data w :
  let id := default "" (data_printJobId job) in
  let r := processBatch validateVectorMetadata totalPages_of runs job data w in
  exists k,
    (k <= length (pageRange data))%nat /\
    uploads (fst r)
    = (uploads w ++ map (fun i => (tmpKey id i, pageBytes runs i))
                       (take k (pageRange data)))%list /\
    Forall (fun i => has_pdf_header (pageBytes runs i) = true)
      (take k (pageRange data)) /\
    (forall k', k' <> targetOf job -> db (fst r) !! k' = db w !! k') /\
    redis (fst r) = redis w /\
    match snd r with
    | Ok out =>
        k = length (pageRange data) /\
        out = map (fun i => (i, tmpKey id i)) (pageRange data)
    | Throw _ => True
    end.
Proof.
  cbn zeta. unfold processBatch.
  pose proof (batchStart_spec job w) as (Hup & Hre & Hfr). cbn zeta in Hup, Hre, Hfr.
  destruct (batchStart validateVectorMetadata job w) as [w1 [j|m]] eqn:Hstart;
    cbn [fst snd] in *.
  - destruct (batchLoop_spec (default "" (data_printJobId job)) data
                (pageRange data) j [] w1)
      as (k & Hk & Hup' & Hall & Hfr' & Hre' & Hres).
    cbn zeta in Hup', Hfr', Hre', Hres.
    assert (Hid : default "" (data_printJobId job) = targetOf job).
    { unfold batchStart in Hstart. unfold targetOf.
      destruct (data_printJobId job); [reflexivity|discriminate]. }
    exists k. split; [exact Hk|]. split; [now rewrite Hup', Hup|].
    split; [exact Hall|].
    split; [intros k' Hk'; rewrite Hfr' by (now rewrite Hid); now apply Hfr|].
    split; [now rewrite Hre'|].
    destruct (snd _); [|exact I]. exact Hres.
  - exists 0%nat. cbn. rewrite app_nil_r. repeat split; auto. lia.
Qed.

Lemma mergeStart_throw job w w0 m :
  mergeStart secret mac job w = (w0, Throw m) -> w0 = w.
Proof.
  unfold mergeStart, update_if_status, discardInvalidLifecycle.
  repeat case_match; intros; simplify_eq; reflexivity.
Qed.





Lemma onFailed_ready job m w d :
  db w !! targetOf job = Some d -> job_status d = READY ->
  onFailed lua_tonumber redis_up job m w = w.
Proof.
  intros Hd Hst. unfold onFailed, failedRead, targetOf in *.
  destruct (data_printJobId job) as [p|]; [|reflexivity].
  destruct (String.eqb p ""); [reflexivity|].
  destruct (String.eqb m INVALID_LIFECYCLE); [reflexivity|].
  rewrite Hd, Hst. reflexivity.
Qed.

Lemma onFailed_discarded job w :
  onFailed lua_tonumber redis_up job INVALID_LIFECYCLE w = w.
Proof.
  unfold onFailed, failedRead.
  destruct (data_printJobId job) as [p|]; [|reflexivity].
  destruct (String.eqb p ""); [reflexivity|]. reflexivity.
Qed.

Lemma mergeStart_stale job w d :
  db w !! targetOf job = Some d ->
  job_status d = MERGE_RUNNING \/ job_status d = READY \/ job_status d = FAILED ->
  exists m, mergeStart secret mac job w = (w, Throw m) /\
            (targetOf job <> "" -> m = INVALID_LIFECYCLE).
Proof.
  intros Hd Hst. unfold mergeStart, targetOf in *.
  destruct (data_printJobId job) as [r|].
  - destruct (String.eqb r "") eqn:E.
    + apply String.eqb_eq in E. eexists. split; [reflexivity|congruence].
    + rewrite Hd.
      destruct Hst as [-> | [-> | ->]]; eexists; (split; [reflexivity|auto]).
  - destruct (parent_printJobId job) as [r|]; cbn [default id] in *.
    + destruct (String.eqb r "") eqn:E.
      * apply String.eqb_eq in E. eexists. split; [reflexivity|].
        intros H. exfalso. apply H. exact E.
      * rewrite Hd.
        destruct Hst as [-> | [-> | ->]]; eexists; (split; [reflexivity|auto]).
    + eexists. split; [reflexivity|]. intros H. exfalso. now apply H.
Qed.

Lemma progressed_to_nil d : progressed_to (progress d) [] d = d.
Proof. destruct d. unfold progressed_to. cbn. now rewrite app_nil_r. Qed.

Lemma set_progress_progressed_to p e q evs d :
  set_progress p e (progressed_to q evs d) = progressed_to p (evs ++ [e]) d.
Proof. unfold set_progress, progressed_to. cbn. now rewrite <- app_assoc. Qed.

Lemma batchLoop_good id data pages : forall jobDoc out w stored q evs,
  forallb (fun i => page_ok (runs i)) pages = true ->
  db w !! id = Some (progressed_to q evs stored) ->
  exists p,
    batchLoop totalPages_of runs id data pages jobDoc out w
    = ({| db := <[id := progressed_to p
                          (evs ++ repeat "PAGE_RENDERED" (length pages)) stored]> (db w);
          uploads := (uploads w ++
                      map (fun i => (tmpKey id i, pageBytes runs i)) pages)%list;
          redis := redis w |},
       Ok (out ++ map (fun i => (i, tmpKey id i)) pages)%list) /\
    (pages = [] -> p = q).
Proof.
  induction pages as [|i rest IH]; intros jobDoc out w stored q evs Hok Hdb.
  - exists q. cbn. rewrite !app_nil_r. split; [|reflexivity].
    rewrite insert_id by exact Hdb. now destruct w.
  - cbn [forallb] in Hok. apply andb_true_iff in Hok as [Hi Hrest].
    cbn [batchLoop]. unfold page_ok in Hi.
    assert (Hbytes : forall b, saved (runs i) = Some (Ok b) -> pageBytes runs i = b).
    { intros b Hb. unfold pageBytes. now rewrite Hb. }
    destruct (created (runs i)) as [[[]|]|]; try discriminate.
    destruct (saved (runs i)) as [[bytes|]|] eqn:Hsaved; try discriminate.
    specialize (Hbytes bytes eq_refl).
    destruct (uploaded (runs i)) as [[[]|]|]; try discriminate.
    destruct (progressed (runs i)) as [[[]|]|]; try discriminate.
    cbn [withTimeout]. rewrite Hi. cbn [negb].
    unfold updateProgress. cbv beta iota zeta.
    unfold save_changes, with_db. cbn [db uploads redis].
    match goal with
    | |- context [batchLoop _ _ _ _ rest ?j ?o ?w1] =>
        destruct (IH j o w1 stored
                    (Z.max 0 (Z.min 100
                       (Z.max (progress jobDoc)
                          (pct i (pagesTotal totalPages_of data jobDoc)))))
                    (evs ++ ["PAGE_RENDERED"])%list Hrest) as (p & Hloop & _)
    end.
    { cbn [db]. rewrite lookup_alter_eq, Hdb. cbn.
      now rewrite set_progress_progressed_to. }
    exists p. split; [|discriminate].
    rewrite Hloop. cbn [db uploads redis length repeat map].
    f_equal; [|now rewrite <- app_assoc].
    f_equal.
    + rewrite <- app_assoc. cbn [app].
      apply map_eq. intros k. destruct (decide (k = id)) as [->|Hk].
      * now rewrite !lookup_insert_eq.
      * now rewrite !lookup_insert_ne, lookup_alter_ne by congruence.
    + rewrite Hbytes. now rewrite <- app_assoc.
Qed.

Lemma processBatch_created job data w jid d :
  data_printJobId job = Some jid ->
  db w !! jid = Some d ->
  job_status d = CREATED ->
  validateVectorMetadata (set_batch_running d) = true ->
  default "" (payloadHmac d) <> "" ->
  forallb (fun i => page_ok (runs i)) (pageRange data) = true ->
  exists p,
    processBatch validateVectorMetadata totalPages_of runs job data w
    = ({| db := <[jid := progressed_to p
                          (repeat "PAGE_RENDERED" (length (pageRange data)))
                          (set_batch_running d)]> (db w);
          uploads := (uploads w ++
                      map (fun i => (tmpKey jid i, pageBytes runs i))
                          (pageRange data))%list;
          redis := redis w |},
       Ok (map (fun i => (i, tmpKey jid i)) (pageRange data))).
Proof.
  intros Hdata Hdb Hst Hvalid Hsig Hok.
  unfold processBatch, batchStart. rewrite Hdata, Hdb, Hst.
  cbn [bool_decide decide_rel orb]. 
  change (bool_decide (CREATED = MERGE_RUNNING)) with false.
  change (bool_decide (CREATED = READY)) with false.
  change (bool_decide (CREATED = FAILED)) with false.
  change (bool_decide (CREATED = CREATED)) with true.
  cbv iota. cbn [orb].
  unfold update_if_status. rewrite Hdb, decide_True by exact Hst.
  rewrite lookup_insert_eq.
  change (negb (bool_decide (job_status (set_batch_running d) = BATCH_RUNNING)))
    with false. cbv iota.
  rewrite Hvalid. cbn [negb].
  change (payloadHmac (set_batch_running d)) with (payloadHmac d).
  apply String.eqb_neq in Hsig. rewrite Hsig. cbn [default id].
  destruct (batchLoop_good jid data (pageRange data) (set_batch_running d) []
              (with_db w (<[jid := set_batch_running d]> (db w)))
              (set_batch_running d) (progress (set_batch_running d)) [] Hok)
    as (p & Hloop & _).
  { cbn [db with_db]. now rewrite lookup_insert_eq, progressed_to_nil. }
  exists p. rewrite Hloop. cbn [db uploads redis with_db app].
  f_equal. f_equal.
  apply map_eq. intros k. destruct (decide (k = jid)) as [->|Hk].
  - now rewrite !lookup_insert_eq.
  - now rewrite !lookup_insert_ne by congruence.
Qed.

Lemma set_batch_running_carries_on d : carries_on d (set_batch_running d).
Proof. unfold carries_on. cbn. repeat split; try reflexivity; eexists; reflexivity. Qed.

Lemma batchStart_carries_on job w :
  db_carries_on (db w) (db (fst (batchStart validateVectorMetadata job w))).
Proof.
  unfold batchStart.
  destruct (data_printJobId job) as [id|]; [|apply db_carries_on_refl].
  destruct (db w !! id) as [d|]; [|apply db_carries_on_refl].
  destruct (_ || _); [apply db_carries_on_refl|].
  destruct (bool_decide (job_status d = CREATED)).
  - pose proof (update_if_status_carries_on id CREATED set_batch_running (db w)
                  set_batch_running_carries_on) as Hup.
    destruct (update_if_status id CREATED set_batch_running (db w)) as [docs [|]];
      cbn [fst] in Hup.
    + repeat case_match; cbn [fst db with_db]; exact Hup.
    + repeat case_match; cbn [fst]; apply db_carries_on_refl.
  - repeat case_match; cbn [fst]; apply db_carries_on_refl.
Qed.

Lemma batchLoop_carries_on id data pages : forall jobDoc out w,
  db_carries_on (db w)
    (db (fst (batchLoop totalPages_of runs id data pages jobDoc out w))).
Proof.
  induction pages as [|i rest IH]; intros jobDoc out w; cbn [batchLoop].
  - apply db_carries_on_refl.
  - destruct (withTimeout (created (runs i)) _ _) as [[]|m];
      [|apply db_carries_on_refl].
    destruct (withTimeout (saved (runs i)) _ _) as [bytes|m];
      [|apply db_carries_on_refl].
    destruct (negb (has_pdf_header bytes)); [apply db_carries_on_refl|].
    destruct (withTimeout (uploaded (runs i)) _ _) as [[]|m];
      [|apply db_carries_on_refl].
    destruct (withTimeout (progressed (runs i)) _ _) as [[]|m];
      [|apply db_carries_on_refl].
    unfold updateProgress. cbv beta iota zeta.
    eapply db_carries_on_trans; [|apply IH].
    cbn [db with_db]. apply alter_carries_on, set_progress_carries_on.
Qed.

Lemma runJob_merge job data rendered w :
  name job = "merge" ->
  runJob secret mac lua_tonumber redis_up validateVectorMetadata totalPages_of runs
    job data rendered w
  = runMerge secret mac lua_tonumber redis_up job rendered w.
Proof.
  intros Hn. unfold runJob, dispatch, runMerge. rewrite Hn. cbn [String.eqb].
  change (String.eqb "merge" "batch") with false.
  change (String.eqb "merge" "merge") with true. cbv iota.
  destruct (processMerge _ _ _ _ _ _ _) as [w' [k|m]]; reflexivity.
Qed.

Lemma runJob_carries_on job data rendered w :
  db_carries_on (db w)
    (db (runJob secret mac lua_tonumber redis_up validateVectorMetadata
           totalPages_of runs job data rendered w)) /\
  uploads w `prefix_of`
    uploads (runJob secret mac lua_tonumber redis_up validateVectorMetadata
               totalPages_of runs job data rendered w).
Proof.
  destruct (String.eqb_spec (name job) "merge") as [Hm|Hm].
  { rewrite runJob_merge by exact Hm.
    apply (runMerge_carries_on mac lua_tonumber redis_up). }
  unfold runJob, dispatch.
  destruct (String.eqb (name job) "batch").
  - assert (Hdb : db_carries_on (db w)
              (db (fst (processBatch validateVectorMetadata totalPages_of runs
                          job data w)))).
    { unfold processBatch.
      pose proof (batchStart_carries_on job w) as Hs.
      destruct (batchStart validateVectorMetadata job w) as [w1 [j|m]];
        cbn [fst] in *; [|exact Hs].
      eapply db_carries_on_trans; [exact Hs | apply batchLoop_carries_on]. }
    destruct (processBatch_spec job data w) as (k & _ & Hup & _ & _ & _ & _).
    cbn zeta in Hup.
    destruct (processBatch _ _ _ _ _ _) as [w' [out|m]]; cbn [fst] in *.
    + split; [exact Hdb|]. rewrite Hup. eexists; reflexivity.
    + destruct (onFailed_carries_on lua_tonumber redis_up job m w') as [Hf Hfu].
      split; [eapply db_carries_on_trans; eassumption|].
      rewrite Hfu, Hup. eexists; reflexivity.
  - apply String.eqb_neq in Hm. rewrite Hm.
    destruct (onFailed_carries_on lua_tonumber redis_up job
                ("Unknown job type: " +:+ name job) w) as [Hf Hfu].
    split; [exact Hf|]. now rewrite Hfu.
Qed.








(** Progress: what is stored only grows, and stays a percentage. *)
Local Abbreviation grows docs docs' :=
  (forall id d, docs !! id = Some d -> (0 <= progress d <= 100)%Z ->
     exists d', docs' !! id = Some d' /\ (progress d <= progress d' <= 100)%Z).

Lemma grows_refl (docs : gmap string jobDoc) : grows docs docs.
Proof. intros id d Hd Hp. exists d. split; [exact Hd | lia]. Qed.

Lemma grows_trans (a b c : gmap string jobDoc) :
  grows a b -> grows b c -> grows a c.
Proof.
  intros Hab Hbc id d Hd Hp.
  destruct (Hab id d Hd Hp) as (d1 & Hd1 & Hp1).
  destruct (Hbc id d1 Hd1 ltac:(lia)) as (d2 & Hd2 & Hp2).
  exists d2. split; [exact Hd2 | lia].
Qed.

Lemma alter_grows (change : jobDoc -> jobDoc) id (docs : gmap string jobDoc) :
  (forall s, docs !! id = Some s -> (0 <= progress s <= 100)%Z ->
     (progress s <= progress (change s) <= 100)%Z) ->
  grows docs (alter change id docs).
Proof.
  intros Hch k d Hd Hp. destruct (decide (k = id)) as [->|Hne].
  - rewrite lookup_alter_eq, Hd. cbn. eexists. split; [reflexivity|]. now apply Hch.
  - rewrite lookup_alter_ne by congruence. exists d. split; [exact Hd | lia].
Qed.

Lemma update_if_status_grows id expected change (docs : gmap string jobDoc) :
  (forall s, (0 <= progress s <= 100)%Z ->
     (progress s <= progress (change s) <= 100)%Z) ->
  grows docs (fst (update_if_status id expected change docs)).
Proof.
  intros Hch. unfold update_if_status.
  destruct (docs !! id) as [stored|] eqn:E; [|apply grows_refl].
  destruct (decide _); [|apply grows_refl]. cbn [fst].
  intros k d Hd Hp. destruct (decide (k = id)) as [->|Hne].
  - rewrite lookup_insert_eq. eexists. split; [reflexivity|].
    assert (stored = d) as -> by congruence. now apply Hch.
  - rewrite lookup_insert_ne by congruence. exists d. split; [exact Hd | lia].
Qed.

Lemma updateProgress_grows id local x event w :
  (forall s, db w !! id = Some s -> progress s = progress local) ->
  grows (db w)
    (db (fst (updateProgress id local (Z.max (progress local) x) event w))) /\
  (forall s, db (fst (updateProgress id local (Z.max (progress local) x) event w))
               !! id = Some s ->
     progress s
     = progress (snd (updateProgress id local (Z.max (progress local) x) event w))).
Proof.
  intros Hloc. unfold updateProgress, save_changes. cbn [fst snd db with_db]. split.
  - apply alter_grows. intros s Hs Hp. rewrite (Hloc s Hs) in *. cbn [set_progress progress].
    lia.
  - intros s. rewrite lookup_alter_eq. destruct (db w !! id); [|discriminate].
    intros [= <-]. reflexivity.
Qed.

Lemma onFailed_grows job m w :
  grows (db w) (db (onFailed lua_tonumber redis_up job m w)).
Proof.
  unfold onFailed. destruct (failedRead job m w) as [d|]; [|apply grows_refl].
  unfold failedSave, save_changes.
  destruct (_ <=? _)%Z; cbn [release db with_db].
  all: apply alter_grows; intros s _ Hp; cbn [set_failed progress]; lia.
Qed.

Lemma batchLoop_grows id data pages : forall jobDoc out w,
  (forall s, db w !! id = Some s -> progress s = progress jobDoc) ->
  grows (db w) (db (fst (batchLoop totalPages_of runs id data pages jobDoc out w))).
Proof.
  induction pages as [|i rest IH]; intros jobDoc out w Hloc; cbn [batchLoop].
  - apply grows_refl.
  - destruct (withTimeout (created (runs i)) _ _) as [[]|m]; [|apply grows_refl].
    destruct (withTimeout (saved (runs i)) _ _) as [bytes|m]; [|apply grows_refl].
    destruct (negb (has_pdf_header bytes)); [apply grows_refl|].
    destruct (withTimeout (uploaded (runs i)) _ _) as [[]|m]; [|apply grows_refl].
    destruct (withTimeout (progressed (runs i)) _ _) as [[]|m]; [|apply grows_refl].
    match goal with
    | |- context [updateProgress ?a ?b (Z.max _ ?x) ?e ?ww] =>
        pose proof (updateProgress_grows a b x e ww Hloc) as [Hg Hl];
        destruct (updateProgress a b (Z.max (progress b) x) e ww) as [w2 jobDoc2]
    end.
    cbn [fst snd] in Hg, Hl.
    eapply grows_trans; [exact Hg | apply IH; exact Hl].
Qed.

Lemma batchStart_grows job w :
  grows (db w) (db (fst (batchStart validateVectorMetadata job w))) /\
  match snd (batchStart validateVectorMetadata job w) with
  | Ok j =>
      forall s, db (fst (batchStart validateVectorMetadata job w))
                  !! default "" (data_printJobId job) = Some s ->
                progress s = progress j
  | Throw _ => True
  end.
Proof.
  unfold batchStart.
  destruct (data_printJobId job) as [jid|]; [|split; [apply grows_refl|exact I]].
  cbn [default id].
  destruct (db w !! jid) as [d|] eqn:Hd; [|split; [apply grows_refl|exact I]].
  destruct (_ || _); [split; [apply grows_refl|exact I]|].
  destruct (bool_decide (job_status d = CREATED)).
  - pose proof (update_if_status_grows jid CREATED set_batch_running (db w)) as Hup.
    destruct (update_if_status jid CREATED set_batch_running (db w)) as [docs [|]];
      cbn [fst] in Hup.
    + assert (Hg : grows (db w) docs).
      { apply Hup. intros s0 Hp. cbn [set_batch_running progress]. lia. }
      repeat case_match; cbn [fst snd db with_db] in *;
        unfold discardInvalidLifecycle in *; simplify_eq;
        (split; [exact Hg|]); try exact I.
      intros s0 Hs0. congruence.
    + repeat case_match; cbn [fst snd] in *;
        unfold discardInvalidLifecycle in *; simplify_eq;
        (split; [apply grows_refl|]); try exact I.
      intros s0 Hs0. congruence.
  - repeat case_match; cbn [fst snd] in *;
      unfold discardInvalidLifecycle in *; simplify_eq;
      (split; [apply grows_refl|]); try exact I.
    intros s0 Hs0. congruence.
Qed.

Lemma mergeStart_ok_db job w w0 ctx :
  mergeStart secret mac job w = (w0, Ok ctx) ->
  exists st,
    db w !! rootPrintJobId ctx = Some (jobRead ctx) /\
    db w0 = <[rootPrintJobId ctx := set_merge_running st (jobRead ctx)]> (db w).
Proof.
  unfold mergeStart, update_if_status, discardInvalidLifecycle.
  repeat case_match; intros; simplify_eq; cbn [rootPrintJobId jobRead db with_db].
  all: eexists; split; [eassumption | reflexivity].
Qed.

Lemma mergeStart_grows job w :
  grows (db w) (db (fst (mergeStart secret mac job w))) /\
  match snd (mergeStart secret mac job w) with
  | Ok ctx =>
      forall s, db (fst (mergeStart secret mac job w)) !! rootPrintJobId ctx = Some s ->
                progress s = progress (jobRead ctx)
  | Throw _ => True
  end.
Proof.
  destruct (mergeStart secret mac job w) as [w0 [ctx|m]] eqn:Hs; cbn [fst snd].
  - destruct (mergeStart_ok_db _ _ _ _ Hs) as (st & Hread & ->). split.
    + intros k d Hd Hp. destruct (decide (k = rootPrintJobId ctx)) as [->|Hne].
      * rewrite lookup_insert_eq. eexists. split; [reflexivity|].
        assert (jobRead ctx = d) as -> by congruence.
        cbn [set_merge_running progress]. lia.
      * rewrite lookup_insert_ne by congruence. exists d. split; [exact Hd | lia].
    + intros s0. rewrite lookup_insert_eq. intros [= <-]. reflexivity.
  - apply mergeStart_throw in Hs. subst w0. split; [apply grows_refl | exact I].
Qed.

Lemma mergeBody_grows ctx rendered w :
  (forall s, db w !! rootPrintJobId ctx = Some s ->
             progress s = progress (jobRead ctx)) ->
  grows (db w) (db (fst (mergeBody ctx rendered w))).
Proof.
  intros Hloc. unfold mergeBody.
  pose proof (updateProgress_grows (rootPrintJobId ctx) (jobRead ctx) 80
                "MERGE_JOB_STARTED" w Hloc) as [Hg1 Hl1].
  destruct (updateProgress _ _ _ "MERGE_JOB_STARTED" w) as [w1 local1].
  cbn [fst snd] in Hg1, Hl1.
  destruct rendered as [bytes|m]; [|exact Hg1].
  destruct (negb (has_pdf_header bytes)); [exact Hg1|].
  pose proof (updateProgress_grows (rootPrintJobId ctx) local1 95
                "FINAL_RENDER_DONE" w1 Hl1) as [Hg2 _].
  destruct (updateProgress _ _ _ "FINAL_RENDER_DONE" w1) as [w2 local2].
  cbn [fst] in Hg2.
  match goal with
  | |- context [update_if_status ?i ?e ?c ?docs] =>
      pose proof (update_if_status_grows i e c docs) as Hup;
      destruct (update_if_status i e c docs) as [docs' [|]]
  end; cbn [fst db with_db] in *.
  - eapply grows_trans; [exact Hg1|]. eapply grows_trans; [exact Hg2|].
    apply Hup. intros s Hp. cbn [set_ready progress]. lia.
  - eapply grows_trans; [exact Hg1 | exact Hg2].
Qed.

Lemma runJob_grows job data rendered w :
  grows (db w)
    (db (runJob secret mac lua_tonumber redis_up validateVectorMetadata
           totalPages_of runs job data rendered w)).
Proof.
  unfold runJob, dispatch.
  destruct (String.eqb (name job) "batch").
  - assert (Hb : grows (db w)
              (db (fst (processBatch validateVectorMetadata totalPages_of runs
                          job data w)))).
    { unfold processBatch.
      pose proof (batchStart_grows job w) as [Hs Hl].
      destruct (batchStart validateVectorMetadata job w) as [w1 [j|m]];
        cbn [fst snd] in *; [|exact Hs].
      eapply grows_trans; [exact Hs | apply batchLoop_grows; exact Hl]. }
    destruct (processBatch _ _ _ _ _ _) as [w' [out|m]]; cbn [fst] in Hb;
      [exact Hb|].
    eapply grows_trans; [exact Hb | apply onFailed_grows].
  - destruct (String.eqb (name job) "merge"); [|apply onFailed_grows].
    assert (Hm : grows (db w)
              (db (fst (processMerge secret mac lua_tonumber redis_up job rendered w)))).
    { unfold processMerge.
      pose proof (mergeStart_grows job w) as [Hs Hl].
      destruct (mergeStart secret mac job w) as [w0 [ctx|m]];
        cbn [fst snd] in *; [|exact Hs].
      unfold mergeFinish.
      pose proof (mergeBody_grows ctx rendered w0 Hl) as Hbody.
      destruct (mergeBody ctx rendered w0) as [w1 r]. cbn [fst release db] in *.
      eapply grows_trans; [exact Hs | exact Hbody]. }
    destruct (processMerge _ _ _ _ _ _ _) as [w' [key|m]]; cbn [fst] in Hm;
      [exact Hm|].
    eapply grows_trans; [exact Hm | apply onFailed_grows].
Qed.

End LoopFacts.

(** X7. Whatever a delivery does (any work item, any outcome of rendering
    and of the timed calls, success or failure), no record is deleted or
    created, every record keeps its id, its signature, its creation date
    and the fields the signed payload and the document id are read from,
    and the lifecycle history, the audit trail and the list of uploads
    only grow at the end. *)
Theorem delivery_keeps_signed_fields
    (secret : option string) (mac : string -> string -> string)
    (lua_tonumber : string -> option Q) (redis_up : bool)
    (validateVectorMetadata : jobDoc -> bool) (totalPages_of : jobDoc -> Z)
    (runs : Z -> pageRun) (job : workItem) (data : batchData)
    (rendered : res string) (w : world) :
  let w' := runJob secret mac lua_tonumber redis_up validateVectorMetadata
              totalPages_of runs job data rendered w in
  db_carries_on (db w) (db w') /\ uploads w `prefix_of` uploads w'.
Proof. apply runJob_carries_on. Qed.

(** X4. The whole pipeline. For a created, correctly signed job whose
    pages all render to PDFs in time: the batch returns one temporary key
    per page of its range and leaves the job in BATCH_RUNNING; the merge
    that follows leaves it READY with progress 100; the uploads are the
    pages in order followed by the final document; and the lifecycle
    history has gained exactly CREATED -> BATCH_RUNNING, BATCH_RUNNING ->
    MERGE_RUNNING, MERGE_RUNNING -> READY. *)
Theorem batch_then_merge_reaches_ready
    (mac : string -> string -> string) (lua_tonumber : string -> option Q)
    (redis_up : bool) (validateVectorMetadata : jobDoc -> bool)
    (totalPages_of : jobDoc -> Z) (runs : Z -> pageRun)
    (key : string) (batchJob mergeJob : workItem) (data : batchData) (w : world)
    (jid : string) (d : jobDoc) (payload : list (string * string)) (bytes : string) :
  data_printJobId batchJob = Some jid -> data_printJobId mergeJob = Some jid ->
  jid <> "" -> db w !! jid = Some d -> job_status d = CREATED -> _id d = jid ->
  validateVectorMetadata (set_batch_running d) = true ->
  getStableHmacPayload d = Ok payload -> key <> "" ->
  payloadHmac d = Some (mac key (default "" (stableStringify (flat payload)))) ->
  mac key (default "" (stableStringify (flat payload))) <> "" ->
  forallb (fun i => page_ok (runs i)) (pageRange data) = true ->
  has_pdf_header bytes = true ->
  let batch := processBatch validateVectorMetadata totalPages_of runs batchJob data w in
  let w2 := runMerge (Some key) mac lua_tonumber redis_up mergeJob (Ok bytes)
              (fst batch) in
  snd batch = Ok (map (fun i => (i, tmpKey jid i)) (pageRange data)) /\
  status_of jid (fst batch) = Some BATCH_RUNNING /\
  uploads w2
  = (uploads w ++ map (fun i => (tmpKey jid i, pageBytes runs i)) (pageRange data)
       ++ [(finalKeyOf jid d, bytes)])%list /\
  exists d2,
    db w2 !! jid = Some d2 /\
    job_status d2 = READY /\ progress d2 = 100%Z /\
    output_key d2 = Some (finalKeyOf jid d) /\
    lifecycleHistory d2
    = (lifecycleHistory d ++
       [{| from := CREATED; to := BATCH_RUNNING; by_source := batch_worker |};
        {| from := BATCH_RUNNING; to := MERGE_RUNNING; by_source := merge_worker |};
        {| from := MERGE_RUNNING; to := READY; by_source := merge_worker |}])%list.
Proof.
  intros Hb Hm Hid Hdb Hst Hself Hvalid Hp Hkey Hsig Hne Hok Hpdf batch w2.
  destruct (processBatch_created validateVectorMetadata totalPages_of runs
              batchJob data w jid d Hb Hdb Hst Hvalid) as (p & Hbatch); [|exact Hok|].
  { rewrite Hsig. exact Hne. }
  subst w2 batch. rewrite Hbatch. cbn [fst snd].
  set (d1 := progressed_to p _ (set_batch_running d)).
  set (w1 := {| db := _; uploads := _; redis := _ |}).
  split; [reflexivity|].
  split; [unfold status_of; subst w1; cbn [db]; now rewrite lookup_insert_eq|].
  unfold runMerge.
  rewrite (processMerge_signed mac lua_tonumber redis_up key mergeJob w1 jid d1 payload
             BATCH_RUNNING bytes Hm Hid);
    [| subst w1; cbn [db]; apply lookup_insert_eq | reflexivity | now right
     | exact Hself | exact Hp | exact Hkey | exact Hsig | exact Hne | exact Hpdf].
  cbn [release db uploads redis].
  split; [subst w1; cbn [uploads]; now rewrite <- app_assoc|].
  eexists. split; [apply lookup_insert_eq|].
  cbn. rewrite <- !app_assoc. repeat split; reflexivity.
Qed.

Lemma batch_then_merge_reaches_ready_witness :
  status_of "65f0c0ffee0123456789abcd"
    (runMerge (Some "k") toy_mac no_number true
       (merge_item "65f0c0ffee0123456789abcd") (Ok "%PDF-1.7")
       (fst (processBatch (fun _ => true) (fun _ => 1%Z) good_run
               (batch_item "65f0c0ffee0123456789abcd")
               {| startPage := 0; endPage := 2; totalPages := 2 |} world_signed)))
  = Some READY.
Proof.
  assert (Hne : toy_mac "k"
                  (default "" (stableStringify
                     (flat [("jobId", "65f0c0ffee0123456789abcd");
                            ("outputKey", "documents/final/a.pdf");
                            ("createdAt", "2024-03-01T10:00:00.000Z")]))) <> "").
  { intros H. vm_compute in H. discriminate H. }
  assert (Hid : "65f0c0ffee0123456789abcd" <> "") by discriminate.
  assert (Hkey : "k" <> "") by discriminate.
  destruct (batch_then_merge_reaches_ready toy_mac no_number true (fun _ => true)
              (fun _ => 1%Z) good_run "k"
              (batch_item "65f0c0ffee0123456789abcd")
              (merge_item "65f0c0ffee0123456789abcd")
              {| startPage := 0; endPage := 2; totalPages := 2 |} world_signed
              "65f0c0ffee0123456789abcd" signed_job
              [("jobId", "65f0c0ffee0123456789abcd");
               ("outputKey", "documents/final/a.pdf");
               ("createdAt", "2024-03-01T10:00:00.000Z")] "%PDF-1.7"
              eq_refl eq_refl Hid eq_refl eq_refl eq_refl eq_refl eq_refl Hkey
              eq_refl Hne eq_refl eq_refl)
    as (_ & _ & _ & d2 & Hd2 & Hst & _).
  unfold status_of. rewrite Hd2. cbn. now rewrite Hst.
Defined.

(** X8. What a batch uploads. Whatever happens, the objects a batch has
    uploaded are the pages of a leading part of its range, in order, each
    under the key documents/tmp/<job>/page-<n>.pdf and each starting with
    the PDF header; when the batch returns, that part is the whole range
    and the result lists the same pages and keys. *)
Theorem batch_uploads_rendered_pages
    (validateVectorMetadata : jobDoc -> bool) (totalPages_of : jobDoc -> Z)
    (runs : Z -> pageRun) (job : workItem) (data : batchData) (w : world) :
  let id := default "" (data_printJobId job) in
  let r := processBatch validateVectorMetadata totalPages_of runs job data w in
  exists k,
    (k <= length (pageRange data))%nat /\
    uploads (fst r)
    = (uploads w ++ map (fun i => (tmpKey id i, pageBytes runs i))
                       (take k (pageRange data)))%list /\
    Forall (fun i => has_pdf_header (pageBytes runs i) = true)
      (take k (pageRange data)) /\
    match snd r with
    | Ok out =>
        k = length (pageRange data) /\
        out = map (fun i => (i, tmpKey id i)) (pageRange data)
    | Throw _ => True
    end.
Proof.
  cbn zeta.
  destruct (processBatch_spec validateVectorMetadata totalPages_of runs job data w)
    as (k & Hk & Hup & Hall & _ & _ & Hres).
  exists k. auto.
Qed.

(** X5. A stale delivery changes nothing. Whatever the work item is
    called, a delivery for a job that is READY leaves the job collection,
    the uploads and the coordination store exactly as they were, the
    failed handler included; so does a batch or merge delivery for a job
    that is in MERGE_RUNNING or FAILED. *)
Theorem stale_delivery_ignored
    (secret : option string) (mac : string -> string -> string)
    (lua_tonumber : string -> option Q) (redis_up : bool)
    (validateVectorMetadata : jobDoc -> bool) (totalPages_of : jobDoc -> Z)
    (runs : Z -> pageRun) (job : workItem) (data : batchData)
    (rendered : res string) (w : world) (d : jobDoc) :
  db w !! targetOf job = Some d ->
  job_status d = READY \/
  ((name job = "batch" \/ name job = "merge") /\
   (job_status d = MERGE_RUNNING \/ job_status d = FAILED)) ->
  runJob secret mac lua_tonumber redis_up validateVectorMetadata totalPages_of runs
    job data rendered w = w.
Proof.
  intros Hd Hst. unfold runJob, dispatch.
  destruct (String.eqb_spec (name job) "batch") as [Hb|Hb].
  - assert (Hs : job_status d = MERGE_RUNNING \/ job_status d = READY \/
                 job_status d = FAILED) by (destruct Hst as [?|[_ [?|?]]]; auto).
    destruct (batchStart_stale validateVectorMetadata job w d Hd Hs) as (m & Hm & Hmsg).
    unfold processBatch. rewrite Hm.
    destruct (data_printJobId job) as [p|] eqn:Hp.
    + rewrite Hmsg by congruence. apply onFailed_discarded.
    + unfold onFailed, failedRead. now rewrite Hp.
  - destruct (String.eqb_spec (name job) "merge") as [Hm|Hm].
    + assert (Hs : job_status d = MERGE_RUNNING \/ job_status d = READY \/
                   job_status d = FAILED) by (destruct Hst as [?|[_ [?|?]]]; auto).
      destruct (mergeStart_stale secret mac job w d Hd Hs) as (m & Hms & Hmsg).
      unfold processMerge. rewrite Hms.
      destruct (String.eqb_spec (targetOf job) "") as [Ht|Ht].
      * unfold onFailed, failedRead. unfold targetOf in Ht.
        destruct (data_printJobId job) as [p|]; [|reflexivity].
        subst p. reflexivity.
      * rewrite Hmsg by exact Ht. apply onFailed_discarded.
    + destruct Hst as [Hr|[[?|?] _]]; [|congruence|congruence].
      now apply (onFailed_ready lua_tonumber redis_up job _ w d).
Qed.

Lemma stale_delivery_ignored_witness :
  runJob (Some "k") toy_mac no_number true (fun _ => true) (fun _ => 1%Z) good_run
    (batch_item "65f0c0ffee0123456789abcd")
    {| startPage := 0; endPage := 2; totalPages := 2 |} (Ok "%PDF-1.7") world_merged
  = world_merged.
Proof.
  apply (stale_delivery_ignored (Some "k") toy_mac no_number true (fun _ => true)
           (fun _ => 1%Z) good_run (batch_item "65f0c0ffee0123456789abcd")
           {| startPage := 0; endPage := 2; totalPages := 2 |} (Ok "%PDF-1.7")
           world_merged
           (set_ready "documents/final/a.pdf"
              (sample_job "65f0c0ffee0123456789abcd" MERGE_RUNNING)));
    [reflexivity | left; reflexivity].
Defined.



(** X9. For each of the four timed calls of a page ([createSinglePage],
    [save], the upload and the progress update), every page index and
    every time limit: when the timer fires first, [withTimeout] rejects
    with a message that [mapErrorCode] classifies as TIMEOUT, whatever the
    fallback is. *)
Theorem batch_timeouts_recorded_as_timeout (pageIndex ms : Z) (fallback : string) :
  Forall (fun label =>
            withTimeout (A := unit) None ms label = Throw (timeoutMessage label ms) /\
            mapErrorCode (timeoutMessage label ms) fallback = "TIMEOUT")
    (pageLabels pageIndex).
Proof.
  unfold pageLabels.
  repeat (constructor; [split; [reflexivity|]; apply timeout_code; cbn; tauto|]).
  constructor.
Qed.



(** X20. Progress never goes back. Over any delivery (any work item, any
    outcome of rendering and of the timed calls, the failed handler
    included), every record whose stored progress is between 0 and 100 is
    still there afterwards, with a progress that is not smaller and is at
    most 100. *)
Theorem progress_never_goes_back
    (secret : option string) (mac : string -> string -> string)
    (lua_tonumber : string -> option Q) (redis_up : bool)
    (validateVectorMetadata : jobDoc -> bool) (totalPages_of : jobDoc -> Z)
    (runs : Z -> pageRun) (job : workItem) (data : batchData)
    (rendered : res string) (w : world) (jid : string) (d : jobDoc) :
  db w !! jid = Some d -> (0 <= progress d <= 100)%Z ->
  exists d',
    db (runJob secret mac lua_tonumber redis_up validateVectorMetadata totalPages_of
          runs job data rendered w) !! jid = Some d' /\
    (progress d <= progress d' <= 100)%Z.
Proof.
  intros Hd Hp.
  exact (runJob_grows secret mac lua_tonumber redis_up validateVectorMetadata
           totalPages_of runs job data rendered w jid d Hd Hp).
Qed.

Lemma progress_never_goes_back_witness :
  exists d',
    db (runJob (Some "k") toy_mac no_number true (fun _ => true) (fun _ => 1%Z)
          bad_page_1 (batch_item "65f0c0ffee0123456789abcd")
          {| startPage := 0; endPage := 3; totalPages := 3 |} (Ok "%PDF-1.7")
          (world_of "65f0c0ffee0123456789abcd"
             (sample_job "65f0c0ffee0123456789abcd" CREATED)))
      !! "65f0c0ffee0123456789abcd" = Some d' /\
    (0 <= progress d' <= 100)%Z.
Proof.
  destruct (progress_never_goes_back (Some "k") toy_mac no_number true (fun _ => true)
              (fun _ => 1%Z) bad_page_1 (batch_item "65f0c0ffee0123456789abcd")
              {| startPage := 0; endPage := 3; totalPages := 3 |} (Ok "%PDF-1.7")
              (world_of "65f0c0ffee0123456789abcd"
                 (sample_job "65f0c0ffee0123456789abcd" CREATED))
              "65f0c0ffee0123456789abcd"
              (sample_job "65f0c0ffee0123456789abcd" CREATED)
              eq_refl ltac:(cbn; lia)) as (d' & Hd' & Hp').
  exists d'. split; [exact Hd'|]. cbn in Hp'. lia.
Defined.

End DeliveryFacts.

Module LockFrame.
Import Js Lock LockFacts.

Lemma release_member_frame lua_tonumber k_active k_member (store1 : gmap string rval) k :
  k <> k_active -> k <> k_member ->
  fst (release_member lua_tonumber k_active k_member store1) !! k = store1 !! k.
Proof.
  intros Ha Hm. unfold release_member, GET, DECR.
  repeat case_match; simplify_eq; cbn [fst];
    rewrite ?lookup_insert_ne, ?lookup_delete_ne by congruence; reflexivity.
Qed.

Lemma RELEASE_frame lua_tonumber k_lock k_active k_member jobId
    (store : gmap string rval) k :
  k <> k_lock -> k <> k_active -> k <> k_member ->
  fst (RELEASE_RENDER_LOCK_LUA lua_tonumber k_lock k_active k_member jobId store) !! k
  = store !! k.
Proof.
  intros Hl Ha Hm. unfold RELEASE_RENDER_LOCK_LUA, GET.
  destruct (store !! k_lock) as [[cur|]|]; cbn [fst]; try reflexivity.
  all: rewrite release_member_frame by assumption.
  2: reflexivity.
  destruct (String.eqb _ _); [|reflexivity].
  apply lookup_delete_ne. congruence.
Qed.

Lemma RELEASE_foreign lua_tonumber k_lock k_active k_member jobId
    (store : gmap string rval) :
  k_lock <> k_active -> k_lock <> k_member ->
  ~ holds_lock k_lock jobId store ->
  fst (RELEASE_RENDER_LOCK_LUA lua_tonumber k_lock k_active k_member jobId store) !! k_lock
  = store !! k_lock.
Proof.
  intros Ha Hm Hnot. unfold RELEASE_RENDER_LOCK_LUA, GET.
  destruct (store !! k_lock) as [[cur|]|] eqn:E; cbn [fst]; try exact E.
  all: rewrite release_member_frame by assumption.
  2: exact E.
  destruct (String.eqb _ _) eqn:Eid; [|exact E].
  exfalso. apply Hnot. exists cur. split; [exact E|].
  now apply String.eqb_eq.
Qed.




(** X11. Releasing touches the lock key, the counter key and the
    membership key of the job only, and it leaves the lock key too unless
    the job itself holds the lock: a lock held by another job survives,
    and so does a lock key holding a value of another type. *)
Theorem release_leaves_other_keys
    (lua_tonumber : string -> option Q) (redis_up : bool)
    (documentId printJobId : string) (store : gmap string rval) (k : string) :
  (k <> lockKey documentId \/ ~ holds_lock (lockKey documentId) printJobId store) ->
  k <> activeKey -> k <> memberKey printJobId ->
  fst (releaseRenderLock lua_tonumber redis_up documentId printJobId store) !! k
  = store !! k.
Proof.
  intros Hl Ha Hm. unfold releaseRenderLock.
  destruct (negb redis_up); [reflexivity|].
  destruct (_ || _); [reflexivity|].
  assert (fst (RELEASE_RENDER_LOCK_LUA lua_tonumber (lockKey documentId) activeKey
                 (memberKey printJobId) printJobId store) !! k = store !! k) as H.
  { destruct (decide (k = lockKey documentId)) as [->|Hk].
    - destruct Hl as [Hl|Hl]; [congruence|].
      apply RELEASE_foreign;
        [apply lockKey_not_active | apply lockKey_not_member | exact Hl].
    - apply RELEASE_frame; assumption. }
  destruct (RELEASE_RENDER_LOCK_LUA _ _ _ _ _ _) as [s' [z|m]]; exact H.
Qed.

Lemma release_leaves_other_keys_witness :
  fst (releaseRenderLock no_number true "d1" "j2" store_held) !! lockKey "d1"
  = Some (VStr "j1").
Proof.
  apply (release_leaves_other_keys no_number true "d1" "j2" store_held (lockKey "d1"));
    [right | discriminate | discriminate].
  intros (cur & Hcur & Hid). vm_compute in Hcur.
  injection Hcur as <-. discriminate Hid.
Defined.

End LockFrame.

Module CanonFacts.
Import Js Hmac HmacFacts Canon.

Lemma each_map (fields : list (string * pval)) :
  (fix each (fs : list (string * pval)) :=
     match fs with
     | [] => []
     | (k, v) :: r => (k, stableStringify v) :: each r
     end) fields
  = map (fun kv => (fst kv, stableStringify (snd kv))) fields.
Proof. induction fields as [|[k v] r IH]; [reflexivity|]. cbn. now rewrite IH. Qed.

Lemma stableStringify_obj fields :
  stableStringify (PObj fields)
  = Some (stringify_object
            (map (fun kv => (fst kv, stableStringify (snd kv))) fields)).
Proof. cbn [stableStringify]. now rewrite each_map. Qed.

Lemma insert_key_Permutation k l : insert_key k l ≡ₚ k :: l.
Proof.
  induction l as [|h t IH]; [reflexivity|]. cbn.
  destruct (String.leb k h); [reflexivity|].
  rewrite IH. apply Permutation_swap.
Qed.

Lemma sort_keys_Permutation l : sort_keys l ≡ₚ l.
Proof.
  induction l as [|k l IH]; [reflexivity|].
  cbn. rewrite insert_key_Permutation. now rewrite IH.
Qed.

Lemma insert_key_Sorted k l :
  Sorted String.le l -> Sorted String.le (insert_key k l).
Proof.
  induction l as [|h t IH]; intros Hs; cbn.
  - repeat constructor.
  - destruct (String.leb k h) eqn:E.
    + constructor; [exact Hs|]. constructor. unfold String.le. now rewrite E.
    + apply Sorted_inv in Hs as [Hs Hh]. constructor; [now apply IH|].
      assert (Hhk : String.le h k).
      { destruct (total String.le h k) as [H|H]; [exact H|].
        unfold String.le in H. rewrite E in H. destruct H. }
      destruct t as [|h' t']; cbn.
      * constructor. exact Hhk.
      * destruct (String.leb k h'); constructor; [exact Hhk|].
        now apply HdRel_inv in Hh.
Qed.

Lemma sort_keys_Sorted l : Sorted String.le (sort_keys l).
Proof.
  induction l as [|k l IH]; cbn; [constructor|]. now apply insert_key_Sorted.
Qed.

Lemma sort_keys_perm_eq l l' : l ≡ₚ l' -> sort_keys l = sort_keys l'.
Proof.
  intros Hp. apply (Sorted_unique String.le); try apply sort_keys_Sorted.
  now rewrite !sort_keys_Permutation.
Qed.

Lemma lookup_first_elem {A} k (v : A) (fs : list (string * A)) :
  List.NoDup (map fst fs) ->
  lookup_first k fs = Some v <-> In (k, v) fs.
Proof.
  induction fs as [|[k' v'] r IH]; intros Hnd; cbn.
  - split; [discriminate | tauto].
  - inversion Hnd as [|? ? Hnot Hnd']; subst.
    destruct (String.eqb k k') eqn:E.
    + apply String.eqb_eq in E. subst k'. split.
      * intros [= ->]. now left.
      * intros [[= ->]|Hin]; [reflexivity|].
        exfalso. apply Hnot. apply in_map_iff. exists (k, v). auto.
    + apply String.eqb_neq in E. rewrite (IH Hnd'). split; [tauto|].
      intros [[= ? ?]|Hin]; [congruence | exact Hin].
Qed.

Lemma lookup_first_Some_In {A} k (v : A) (fs : list (string * A)) :
  lookup_first k fs = Some v -> In (k, v) fs.
Proof.
  induction fs as [|[k' v'] r IH]; [discriminate|]. cbn.
  destruct (String.eqb k k') eqn:E.
  - apply String.eqb_eq in E. intros [= ->]. subst. now left.
  - intros H. right. now apply IH.
Qed.

Lemma lookup_first_Permutation {A} k (fs fs' : list (string * A)) :
  List.NoDup (map fst fs) -> fs' ≡ₚ fs ->
  lookup_first k fs' = lookup_first k fs.
Proof.
  intros Hnd Hp.
  assert (Hnd' : List.NoDup (map fst fs')).
  { eapply Permutation_NoDup; [|exact Hnd]. apply Permutation_map. now symmetry. }
  destruct (lookup_first k fs) as [v|] eqn:E.
  - apply lookup_first_elem; [exact Hnd'|].
    apply (Permutation_in _ (Permutation_sym Hp)).
    now apply lookup_first_elem in E.
  - destruct (lookup_first k fs') as [v|] eqn:E'; [|reflexivity].
    apply lookup_first_elem in E'; [|exact Hnd'].
    apply (Permutation_in _ Hp) in E'.
    apply lookup_first_elem in E'; [congruence | exact Hnd].
Qed.

Lemma stringify_object_Permutation (r r' : list (string * option string)) :
  List.NoDup (map fst r) -> r' ≡ₚ r ->
  stringify_object r' = stringify_object r.
Proof.
  intros Hnd Hp. unfold stringify_object.
  rewrite (sort_keys_perm_eq
             (map fst (filter (fun kr => is_Some (snd kr)) r'))
             (map fst (filter (fun kr => is_Some (snd kr)) r))).
  2:{ apply Permutation_map. now rewrite Hp. }
  do 2 f_equal. f_equal.
  apply map_ext. intros k. now rewrite (lookup_first_Permutation k r r').
Qed.

Lemma get_Permutation fields fields' name :
  List.NoDup (map fst fields) -> fields' ≡ₚ fields ->
  get (PObj fields') name = get (PObj fields) name.
Proof. intros Hnd Hp. cbn. now rewrite (lookup_first_Permutation name fields fields'). Qed.

Lemma stableStringify_None v : stableStringify v = None <-> is_undefined v = true.
Proof. destruct v as [| |[]| | | |]; cbn; split; congruence. Qed.

Lemma lookup_first_defined k fields v :
  List.NoDup (map fst fields) ->
  lookup_first k fields = Some v -> is_undefined v = false ->
  lookup_first k (defined_fields fields) = Some v.
Proof.
  intros Hnd Hl Hv.
  assert (Hnd' : List.NoDup (map fst (defined_fields fields))).
  { unfold defined_fields. clear Hl. induction fields as [|[k' v'] r IH]; [constructor|].
    cbn in Hnd. inversion Hnd as [|? ? Hnot Hr]; subst.
    rewrite filter_cons. destruct (decide _); cbn; [|now apply IH].
    constructor; [|now apply IH].
    intros Hin. apply Hnot. apply in_map_iff in Hin as ([k2 v2] & <- & Hin).
    apply in_map_iff. exists (k2, v2). split; [reflexivity|].
    apply list_elem_of_In, list_elem_of_filter in Hin as [_ Hin].
    now apply list_elem_of_In. }
  apply lookup_first_elem; [exact Hnd'|].
  apply lookup_first_elem in Hl; [|exact Hnd].
  apply list_elem_of_In, list_elem_of_filter. split; [exact Hv|].
  now apply list_elem_of_In.
Qed.

Lemma defined_fields_rendered fields :
  filter (fun kr : string * option string => is_Some (snd kr))
    (map (fun kv => (fst kv, stableStringify (snd kv))) (defined_fields fields))
  = filter (fun kr : string * option string => is_Some (snd kr))
      (map (fun kv => (fst kv, stableStringify (snd kv))) fields).
Proof.
  unfold defined_fields. induction fields as [|[k v] r IH]; [reflexivity|].
  rewrite filter_cons. cbn [snd map].
  destruct (decide (is_undefined v = false)) as [Hv|Hv].
  - cbn [map]. rewrite !filter_cons. cbn [snd fst]. now rewrite IH.
  - rewrite filter_cons. cbn [snd fst].
    apply not_false_is_true, stableStringify_None in Hv. rewrite Hv.
    rewrite decide_False; [exact IH|]. intros [? [=]].
Qed.

(** X12. The canonical string of an object does not depend on the order
    of its properties, and neither does the outcome of signing and of
    verifying it (the result or the error thrown). *)
Theorem canonical_string_ignores_order
    (secret : option string) (mac : string -> string -> string)
    (fields fields' : list (string * pval)) (candidate : pval) :
  List.NoDup (map fst fields) -> fields' ≡ₚ fields ->
  stableStringify (PObj fields') = stableStringify (PObj fields) /\
  signJobPayload secret mac (PObj fields') = signJobPayload secret mac (PObj fields) /\
  verifyJobPayload secret mac (PObj fields') candidate
  = verifyJobPayload secret mac (PObj fields) candidate.
Proof.
  intros Hnd Hp.
  assert (Hs : stableStringify (PObj fields') = stableStringify (PObj fields)).
  { rewrite !stableStringify_obj. f_equal.
    apply stringify_object_Permutation.
    - rewrite map_map. cbn [fst]. exact Hnd.
    - now apply Permutation_map. }
  assert (Hsign : signJobPayload secret mac (PObj fields')
                  = signJobPayload secret mac (PObj fields)).
  { unfold signJobPayload.
    rewrite !(get_Permutation fields fields') by assumption.
    now rewrite Hs. }
  split; [exact Hs|]. split; [exact Hsign|].
  unfold verifyJobPayload. now rewrite Hsign.
Qed.

Lemma canonical_string_ignores_order_witness :
  stableStringify (PObj payload_cab) = stableStringify (PObj payload_abc) /\
  verifyJobPayload (Some "k") toy_mac (PObj payload_cab)
    (PStr (toy_mac "k" (default "" (stableStringify (PObj payload_abc)))))
  = Ok true.
Proof.
  destruct (canonical_string_ignores_order (Some "k") toy_mac payload_abc payload_cab
              (PStr (toy_mac "k" (default "" (stableStringify (PObj payload_abc))))))
    as (Hs & _ & Hv).
  - repeat constructor; cbn; intros H; repeat destruct H as [H|H]; discriminate || exact H.
  - apply (Permutation_cons_app
             [("jobId", PStr "j1"); ("outputKey", PStr "documents/final/a.pdf")] []).
    reflexivity.
  - split; [exact Hs|]. rewrite Hv. reflexivity.
Defined.

(** X13. A property whose value is [undefined] is not part of the
    canonical string: an object and the same object without its undefined
    properties sign alike and verify alike. *)
Theorem undefined_fields_not_signed
    (secret : option string) (mac : string -> string -> string)
    (fields : list (string * pval)) (candidate : pval) :
  List.NoDup (map fst fields) ->
  stableStringify (PObj (defined_fields fields)) = stableStringify (PObj fields) /\
  signJobPayload secret mac (PObj (defined_fields fields))
  = signJobPayload secret mac (PObj fields) /\
  verifyJobPayload secret mac (PObj (defined_fields fields)) candidate
  = verifyJobPayload secret mac (PObj fields) candidate.
Proof.
  intros Hnd.
  assert (Hs : stableStringify (PObj (defined_fields fields))
               = stableStringify (PObj fields)).
  { rewrite !stableStringify_obj. f_equal. unfold stringify_object.
    rewrite defined_fields_rendered. do 2 f_equal. f_equal.
    apply map_ext_in. intros k Hk.
    apply (proj1 (sort_keys_In _ _)) in Hk.
    apply in_map_iff in Hk as ([k' r] & Hk' & Hin). cbn in Hk'. subst k'.
    apply list_elem_of_In, list_elem_of_filter in Hin as [Hsome Hin].
    apply list_elem_of_In, in_map_iff in Hin as ([k2 v] & Heq & Hin).
    cbn in Heq. injection Heq as -> <-. cbn in Hsome.
    assert (Hv : is_undefined v = false).
    { destruct (is_undefined v) eqn:E; [|reflexivity].
      apply stableStringify_None in E. rewrite E in Hsome. now destruct Hsome. }
    assert (Hl : lookup_first k fields = Some v).
    { apply lookup_first_elem; assumption. }
    rewrite !(lookup_first_map stableStringify).
    rewrite (lookup_first_defined k fields v Hnd Hl Hv), Hl. reflexivity. }
  assert (Hget : forall name,
             truthy (get (PObj (defined_fields fields)) name)
             = truthy (get (PObj fields) name)).
  { intros name. cbn [get].
    destruct (lookup_first name (defined_fields fields)) as [v'|] eqn:Hl'.
    - apply lookup_first_Some_In in Hl'.
      apply list_elem_of_In, list_elem_of_filter in Hl' as [_ Hin].
      apply list_elem_of_In, (lookup_first_elem _ _ _ Hnd) in Hin.
      now rewrite Hin.
    - destruct (lookup_first name fields) as [v|] eqn:Hl; [|reflexivity].
      destruct (is_undefined v) eqn:Hv; [now destruct v|].
      now rewrite (lookup_first_defined name fields v Hnd Hl Hv) in Hl'. }
  assert (Hsign : signJobPayload secret mac (PObj (defined_fields fields))
                  = signJobPayload secret mac (PObj fields)).
  { unfold signJobPayload. rewrite !Hget, Hs. reflexivity. }
  split; [exact Hs|]. split; [exact Hsign|].
  unfold verifyJobPayload. now rewrite Hsign.
Qed.

Lemma undefined_fields_not_signed_witness :
  stableStringify (PObj payload_abc_undefined) = stableStringify (PObj payload_abc).
Proof.
  destruct (undefined_fields_not_signed (Some "k") toy_mac payload_abc_undefined PNull)
    as (Hs & _ & _).
  - repeat constructor; cbn; intros H; repeat destruct H as [H|H]; discriminate || exact H.
  - symmetry. exact Hs.
Defined.

End CanonFacts.

Module PlacementFacts.
Import Js Layout LayoutFacts.
Local Open Scope Q_scope.




Section Geometry.
Variables A4_WIDTH A4_HEIGHT SAFE_MARGIN : Q.
Variable snap : Q -> Q.


Lemma map_seq_ext {A} (f g : nat -> A) a n :
  (forall i, (a <= i < a + n)%nat -> f i = g i) -> map f (seq a n) = map g (seq a n).
Proof.
  intros H. apply map_ext_in. intros i Hi. apply in_seq in Hi. now apply H.
Qed.

End Geometry.




End PlacementFacts.

Module NormalizeFacts.
Import Js Layout Normalize LayoutFacts.
Local Open Scope Q_scope.

Lemma Qle_bool_false a b : Qle_bool a b = false <-> b < a.
Proof.
  split.
  - intros H. apply Qnot_le_lt. intros Hle. apply Qle_bool_iff in Hle. congruence.
  - intros H. destruct (Qle_bool a b) eqn:E; [|reflexivity].
    apply Qle_bool_iff in E. lra.
Qed.

Lemma scale_facts A B w h :
  0 < A -> 0 < B -> 0 < w -> 0 < h ->
  let s := qmin (A / w) (B / h) in
  0 < s /\ s * w <= A /\ s * h <= B /\ (s * w == A \/ s * h == B).
Proof.
  intros HA HB Hw Hh s.
  assert (Haw : (A / w) * w == A) by (field; lra).
  assert (Hbh : (B / h) * h == B) by (field; lra).
  assert (Haw0 : 0 < A / w) by (apply Qlt_shift_div_l; lra).
  assert (Hbh0 : 0 < B / h) by (apply Qlt_shift_div_l; lra).
  subst s. unfold qmin. destruct (Qltb (B / h) (A / w)) eqn:E.
  - apply Qltb_true in E. split; [exact Hbh0|].
    split; [|split; [lra | right; exact Hbh]].
    rewrite <- Haw. apply Qmult_le_compat_r; lra.
  - apply Qltb_false in E. split; [exact Haw0|].
    split; [lra|]. split; [|left; exact Haw].
    rewrite <- Hbh. apply Qmult_le_compat_r; lra.
Qed.

(** X17. Without a placement rule, the transform [normalizeSvgToA4]
    writes scales the view box by one positive factor for both axes, keeps
    it within the page, centres it in both directions, and makes it as
    wide or as high as the page. *)
Theorem normalized_content_centred_on_page
    (A4_WIDTH A4_HEIGHT SAFE_MARGIN : Q) (vb : viewBox) :
  0 < A4_WIDTH -> 0 < A4_HEIGHT -> 0 < vb_width vb -> 0 < vb_height vb ->
  exists s tx ty,
    normalizeTransform A4_WIDTH A4_HEIGHT SAFE_MARGIN (Some vb) None
    = Ok (s, tx, ty) /\
    0 < s /\
    let left := fst (transformed (s, tx, ty) (vb_x vb, vb_y vb)) in
    let top := snd (transformed (s, tx, ty) (vb_x vb, vb_y vb)) in
    let right :=
      fst (transformed (s, tx, ty) (vb_x vb + vb_width vb, vb_y vb + vb_height vb)) in
    let bottom :=
      snd (transformed (s, tx, ty) (vb_x vb + vb_width vb, vb_y vb + vb_height vb)) in
    0 <= left /\ right <= A4_WIDTH /\ 0 <= top /\ bottom <= A4_HEIGHT /\
    left == A4_WIDTH - right /\ top == A4_HEIGHT - bottom /\
    (right - left == A4_WIDTH \/ bottom - top == A4_HEIGHT).
Proof.
  intros HA HB Hw Hh.
  destruct (scale_facts A4_WIDTH A4_HEIGHT (vb_width vb) (vb_height vb) HA HB Hw Hh)
    as (Hs & Hsw & Hsh & Hfill).
  cbn zeta in Hs, Hsw, Hsh, Hfill.
  unfold normalizeTransform.
  assert (Qle_bool (vb_width vb) 0 = false) as -> by (apply Qle_bool_false; lra).
  assert (Qle_bool (vb_height vb) 0 = false) as -> by (apply Qle_bool_false; lra).
  assert (Qle_bool A4_WIDTH 0 = false) as -> by (apply Qle_bool_false; lra).
  assert (Qle_bool A4_HEIGHT 0 = false) as -> by (apply Qle_bool_false; lra).
  cbn [orb].
  set (s := qmin (A4_WIDTH / vb_width vb) (A4_HEIGHT / vb_height vb)) in *.
  eexists _, _, _. split; [reflexivity|]. split; [exact Hs|].
  cbn [transformed fst snd].
  clearbody s. destruct vb as [x y w h]. cbn [vb_x vb_y vb_width vb_height] in *.
  assert (El : - x * s + (A4_WIDTH - w * s) / 2 + s * x == (A4_WIDTH - s * w) / 2)
    by field.
  assert (Er : - x * s + (A4_WIDTH - w * s) / 2 + s * (x + w) == (A4_WIDTH + s * w) / 2)
    by field.
  assert (Et : - y * s + (A4_HEIGHT - h * s) / 2 + s * y == (A4_HEIGHT - s * h) / 2)
    by field.
  assert (Eb : - y * s + (A4_HEIGHT - h * s) / 2 + s * (y + h)
               == (A4_HEIGHT + s * h) / 2) by field.
  rewrite El, Er, Et, Eb. clear El Er Et Eb.
  revert Hsw Hsh Hfill. generalize (s * w) (s * h). intros sw sh Hsw Hsh Hfill.
  unfold Qdiv. change (/ 2) with (1 # 2).
  repeat split; lra.
Qed.

Lemma normalized_content_centred_on_page_witness :
  exists s tx ty,
    normalizeTransform sample_A4_WIDTH sample_A4_HEIGHT sample_SAFE_MARGIN
      (Some {| vb_x := 10; vb_y := 20; vb_width := 100; vb_height := 50 |}) None
    = Ok (s, tx, ty) /\ 0 < s.
Proof.
  destruct (normalized_content_centred_on_page sample_A4_WIDTH sample_A4_HEIGHT
              sample_SAFE_MARGIN {| vb_x := 10; vb_y := 20; vb_width := 100; vb_height := 50 |})
    as (s & tx & ty & Hn & Hs & _); try reflexivity.
  exists s, tx, ty. split; assumption.
Defined.



End NormalizeFacts.
